(** * The "Who's Out" service worker: caching and push notifications

    A shallow embedding of the two variants of the service-worker script
    ([static/service-worker.js] and its shorter sibling) together with the
    part of the browser platform they talk to: the ECMAScript values and
    operators the handlers use, [JSON.parse], cache storage, the network,
    notifications and window clients. *)

From Stdlib Require Import List NArith ZArith String Ascii Bool Lia DecimalString.
From Stdlib Require Import DecimalN DecimalPos.
Import ListNotations.

Set Implicit Arguments.
Set Warnings "-register-all".

(** ** ECMAScript values *)

Module JS.

Local Open Scope N_scope.

(** A JavaScript string is a sequence of UTF-16 code units. *)
Definition jsstring := list N.

(** An ASCII literal of the source as a JavaScript string. *)
Definition js (s : string) : jsstring := map N_of_ascii (list_ascii_of_string s).

(** A text written with ['] standing for the double quote (code unit 34),
    which a string literal here cannot hold bare. *)
Definition quoted (s : string) : jsstring :=
  map (fun c => if c =? 39 then 34 else c) (js s).

Fixpoint jsstring_eqb (a b : jsstring) : bool :=
  match a, b with
  | [], [] => true
  | x :: a', y :: b' => (x =? y) && jsstring_eqb a' b'
  | _, _ => false
  end.

(** A number as [JSON.parse] reads it: sign, decimal mantissa and decimal
    exponent, standing for [(-1)^neg * mant * 10^exp10]. *)
Record number := { neg : bool; mant : N; exp10 : Z }.

(** The Number value of a literal is [+0] or [-0] when its mantissa is zero
    or when it rounds to zero, that is when it is at most [2^-1075], half the
    smallest positive double (a tie rounds to the even neighbour, zero). *)
Definition number_is_zero (n : number) : bool :=
  (mant n =? 0) ||
  (if (exp10 n <? 0)%Z
   then (Z.of_N (mant n) * 2 ^ 1075 <=? 10 ^ (- exp10 n))%Z
   else false).

Inductive value :=
| VUndefined
| VNull
| VBool (b : bool)
| VNumber (n : number)
| VString (s : jsstring)
| VArray (elements : list value)
| VObject (properties : list (jsstring * value)).

(** ToBoolean. *)
Definition to_boolean (v : value) : bool :=
  match v with
  | VUndefined | VNull => false
  | VBool b => b
  | VNumber n => negb (number_is_zero n)
  | VString s => match s with [] => false | _ => true end
  | VArray _ | VObject _ => true
  end.

(** [a || b] on values. *)
Definition or_else (a b : value) : value := if to_boolean a then a else b.

(** Own properties of an object, in creation order. *)
Fixpoint lookup (k : jsstring) (o : list (jsstring * value)) : option value :=
  match o with
  | [] => None
  | (k', v) :: o' => if jsstring_eqb k k' then Some v else lookup k o'
  end.

(** CreateDataProperty: an existing property of that name is overwritten. *)
Fixpoint define (k : jsstring) (v : value) (o : list (jsstring * value))
  : list (jsstring * value) :=
  match o with
  | [] => [(k, v)]
  | (k', v') :: o' =>
      if jsstring_eqb k k' then (k, v) :: o' else (k', v') :: define k v o'
  end.

(** ** JSON.parse *)

Inductive parse_result (A : Type) :=
| Parsed (a : A) (rest : jsstring)
| Malformed
| OutOfFuel.
Arguments Malformed {A}.
Arguments OutOfFuel {A}.

(** JSON white space: tab, line feed, carriage return, space. *)
Definition is_ws (c : N) : bool :=
  (c =? 9) || (c =? 10) || (c =? 13) || (c =? 32).

Fixpoint skip_ws (s : jsstring) : jsstring :=
  match s with
  | c :: r => if is_ws c then skip_ws r else s
  | [] => []
  end.

Definition is_digit (c : N) : bool := (48 <=? c) && (c <=? 57).

Definition hex_digit (c : N) : option N :=
  if is_digit c then Some (c - 48)
  else if (65 <=? c) && (c <=? 70) then Some (c - 55)
  else if (97 <=? c) && (c <=? 102) then Some (c - 87)
  else None.

Definition hex4 (a b c d : N) : option N :=
  match hex_digit a, hex_digit b, hex_digit c, hex_digit d with
  | Some x, Some y, Some z, Some t => Some (((x * 16 + y) * 16 + z) * 16 + t)
  | _, _, _, _ => None
  end.

(** The single-character escapes: quote, backslash, slash, b f n r t. *)
Definition escape (c : N) : option N :=
  if c =? 34 then Some 34
  else if c =? 92 then Some 92
  else if c =? 47 then Some 47
  else if c =? 98 then Some 8
  else if c =? 102 then Some 12
  else if c =? 110 then Some 10
  else if c =? 114 then Some 13
  else if c =? 116 then Some 9
  else None.

(** The characters of a string after its opening quote, up to and including
    the closing quote. Control characters below U+0020 are not allowed. *)
Fixpoint parse_chars (s : jsstring) : option (jsstring * jsstring) :=
  match s with
  | [] => None
  | c :: r =>
      if c =? 34 then Some ([], r)
      else if c =? 92 then
        match r with
        | [] => None
        | e :: r1 =>
            if e =? 117 then
              match r1 with
              | h1 :: h2 :: h3 :: h4 :: r2 =>
                  match hex4 h1 h2 h3 h4, parse_chars r2 with
                  | Some u, Some (str, rest) => Some (u :: str, rest)
                  | _, _ => None
                  end
              | _ => None
              end
            else
              match escape e, parse_chars r1 with
              | Some x, Some (str, rest) => Some (x :: str, rest)
              | _, _ => None
              end
        end
      else if c <? 32 then None
      else
        match parse_chars r with
        | Some (str, rest) => Some (c :: str, rest)
        | None => None
        end
  end.

(** A maximal run of decimal digits, most significant first. *)
Fixpoint take_digits (s : jsstring) : list N * jsstring :=
  match s with
  | c :: r =>
      if is_digit c
      then let '(ds, rest) := take_digits r in ((c - 48) :: ds, rest)
      else ([], s)
  | [] => ([], [])
  end.

Definition digits_value (ds : list N) : N :=
  fold_left (fun acc d => acc * 10 + d) ds 0.

(** The integer part: a single [0], or a digit [1-9] followed by digits. *)
Definition parse_int (s : jsstring) : option (list N * jsstring) :=
  match s with
  | c :: r =>
      if c =? 48 then Some ([0], r)
      else if is_digit c then Some (take_digits s)
      else None
  | [] => None
  end.

(** The optional fraction: a dot followed by at least one digit. *)
Definition parse_frac (s : jsstring) : option (list N * jsstring) :=
  match s with
  | c :: r =>
      if c =? 46 then
        match take_digits r with
        | ([], _) => None
        | (ds, rest) => Some (ds, rest)
        end
      else Some ([], s)
  | [] => Some ([], [])
  end.

(** The optional exponent: [e] or [E], an optional sign, at least one digit. *)
Definition parse_exp (s : jsstring) : option (Z * jsstring) :=
  match s with
  | c :: r =>
      if (c =? 101) || (c =? 69) then
        let '(sign, r1) :=
          match r with
          | c1 :: r' =>
              if c1 =? 45 then (true, r')
              else if c1 =? 43 then (false, r')
              else (false, r)
          | [] => (false, r)
          end in
        match take_digits r1 with
        | ([], _) => None
        | (ds, rest) =>
            let e := Z.of_N (digits_value ds) in
            Some (if sign then (- e)%Z else e, rest)
        end
      else Some (0%Z, s)
  | [] => Some (0%Z, [])
  end.

Definition parse_number (s : jsstring) : parse_result value :=
  let '(sign, s1) :=
    match s with
    | c :: r => if c =? 45 then (true, r) else (false, s)
    | [] => (false, s)
    end in
  match parse_int s1 with
  | None => Malformed
  | Some (ip, s2) =>
      match parse_frac s2 with
      | None => Malformed
      | Some (fp, s3) =>
          match parse_exp s3 with
          | None => Malformed
          | Some (e, s4) =>
              Parsed (VNumber {| neg := sign;
                                 mant := digits_value (ip ++ fp);
                                 exp10 := e - Z.of_nat (List.length fp) |}) s4
          end
      end
  end.

(** [expect lit s]: the rest of [s] after the literal [lit], if [s] starts
    with it. *)
Fixpoint expect (lit s : jsstring) : option jsstring :=
  match lit, s with
  | [], _ => Some s
  | l :: lit', c :: s' => if l =? c then expect lit' s' else None
  | _ :: _, [] => None
  end.

Definition parse_literal (lit : string) (v : value) (s : jsstring)
  : parse_result value :=
  match expect (js lit) s with
  | Some rest => Parsed v rest
  | None => Malformed
  end.

(** A value, the elements of an array after its first bracket, the members
    of an object after its first brace. Each call takes one unit of fuel. *)
Fixpoint parse_value (fuel : nat) (s : jsstring) : parse_result value :=
  match fuel with
  | O => OutOfFuel
  | S f =>
      match skip_ws s with
      | [] => Malformed
      | c :: r =>
          if c =? 123 then
            match skip_ws r with
            | [] => Malformed
            | c1 :: r1 =>
                if c1 =? 125 then Parsed (VObject []) r1
                else
                  match parse_members f (c1 :: r1) [] with
                  | Parsed o rest => Parsed (VObject o) rest
                  | Malformed => Malformed
                  | OutOfFuel => OutOfFuel
                  end
            end
          else if c =? 91 then
            match skip_ws r with
            | [] => Malformed
            | c1 :: r1 =>
                if c1 =? 93 then Parsed (VArray []) r1
                else
                  match parse_elements f (c1 :: r1) with
                  | Parsed vs rest => Parsed (VArray vs) rest
                  | Malformed => Malformed
                  | OutOfFuel => OutOfFuel
                  end
            end
          else if c =? 34 then
            match parse_chars r with
            | Some (str, rest) => Parsed (VString str) rest
            | None => Malformed
            end
          else if (c =? 45) || is_digit c then parse_number (c :: r)
          else if c =? 116 then parse_literal "true" (VBool true) (c :: r)
          else if c =? 102 then parse_literal "false" (VBool false) (c :: r)
          else if c =? 110 then parse_literal "null" VNull (c :: r)
          else Malformed
      end
  end

with parse_elements (fuel : nat) (s : jsstring) : parse_result (list value) :=
  match fuel with
  | O => OutOfFuel
  | S f =>
      match parse_value f s with
      | Parsed v rest =>
          match skip_ws rest with
          | [] => Malformed
          | c :: r =>
              if c =? 44 then
                match parse_elements f r with
                | Parsed vs rest' => Parsed (v :: vs) rest'
                | Malformed => Malformed
                | OutOfFuel => OutOfFuel
                end
              else if c =? 93 then Parsed [v] r
              else Malformed
          end
      | Malformed => Malformed
      | OutOfFuel => OutOfFuel
      end
  end

with parse_members (fuel : nat) (s : jsstring) (o : list (jsstring * value))
  : parse_result (list (jsstring * value)) :=
  match fuel with
  | O => OutOfFuel
  | S f =>
      match skip_ws s with
      | [] => Malformed
      | q :: r =>
          if q =? 34 then
            match parse_chars r with
            | None => Malformed
            | Some (k, r1) =>
                match skip_ws r1 with
                | [] => Malformed
                | c :: r2 =>
                    if c =? 58 then
                      match parse_value f r2 with
                      | Parsed v rest =>
                          match skip_ws rest with
                          | [] => Malformed
                          | d :: r3 =>
                              if d =? 44 then parse_members f r3 (define k v o)
                              else if d =? 125 then Parsed (define k v o) r3
                              else Malformed
                          end
                      | Malformed => Malformed
                      | OutOfFuel => OutOfFuel
                      end
                    else Malformed
                end
            end
          else Malformed
      end
  end.

(** Fuel that is always enough for a text (see [parse_value_fuel]). *)
Definition fuel_for (s : jsstring) : nat := 2 * List.length s + 2.

(** [JSON.parse text]: the whole text is one value between white space;
    [None] stands for the SyntaxError exception. *)
Definition JSON_parse (text : jsstring) : option value :=
  match parse_value (fuel_for text) text with
  | Parsed v rest =>
      match skip_ws rest with
      | [] => Some v
      | _ :: _ => None
      end
  | Malformed | OutOfFuel => None
  end.

End JS.

Import JS.

(** ** The platform: cache storage, network, notifications, clients *)

Module Platform.

Local Open Scope N_scope.

Record Request := { method : jsstring; url : jsstring }.

(** The request made from a URL string alone, as [cache.addAll] does. *)
Definition GET (u : jsstring) : Request := {| method := js "GET"; url := u |}.

Record Response := { status : N; payload : jsstring }.

(** What the transport answers to a request. *)
Inductive FetchOutcome :=
| NetworkError
| Answer (r : Response).

(** A cache: request/response pairs, oldest first. *)
Definition Cache := list (Request * Response).

(** A request matches a cached one when it is a GET of the same URL. *)
Definition request_matches (query cached : Request) : bool :=
  jsstring_eqb (method query) (js "GET") &&
  jsstring_eqb (url query) (url cached).

Fixpoint cache_match (c : Cache) (query : Request) : option Response :=
  match c with
  | [] => None
  | (k, r) :: c' =>
      if request_matches query k then Some r else cache_match c' query
  end.

(** [cache.put]: the entries the request matches are replaced. *)
Definition cache_put (c : Cache) (k : Request) (r : Response) : Cache :=
  filter (fun e => negb (request_matches k (fst e))) c ++ [(k, r)].

(** Cache storage: the named caches of the origin, in creation order. *)
Definition CacheStorage := list (jsstring * Cache).

Fixpoint bucket (name : jsstring) (st : CacheStorage) : option Cache :=
  match st with
  | [] => None
  | (n, c) :: st' => if jsstring_eqb name n then Some c else bucket name st'
  end.

Fixpoint with_bucket (name : jsstring) (f : Cache -> Cache) (st : CacheStorage)
  : CacheStorage :=
  match st with
  | [] => []
  | (n, c) :: st' =>
      if jsstring_eqb name n then (n, f c) :: st'
      else (n, c) :: with_bucket name f st'
  end.

(** [caches.match]: the first match over the caches in creation order. *)
Fixpoint storage_match (st : CacheStorage) (query : Request) : option Response :=
  match st with
  | [] => None
  | (_, c) :: st' =>
      match cache_match c query with
      | Some r => Some r
      | None => storage_match st' query
      end
  end.

(** An open page of the application. *)
Record Page := { page_url : jsstring; controlled : bool }.

(** A displayed notification, with the title and options the script gave. *)
Record Notification := { ident : nat; title : value; options : value }.

(** The calls a script makes on the platform. *)
Inductive Call :=
| CachesOpen (name : jsstring)
| CacheAddAll (cache : jsstring) (urls : list jsstring)
| CachesMatch (req : Request)
| Fetch (req : Request)
| SkipWaiting
| ClientsClaim
| OpenWindow (u : jsstring)
| ShowNotification (t : value) (o : value)
| NotificationClose (n : Notification).

Record World := {
  caches : CacheStorage;
  network : Request -> FetchOutcome;
  clock : N;                       (* milliseconds since the epoch *)
  pages : list Page;
  shown : list Notification;
  next_ident : nat;
  skip_waiting : bool;
  calls : list Call                (* oldest first *)
}.

Definition set_caches (f : CacheStorage -> CacheStorage) (w : World) : World :=
  {| caches := f (caches w); network := network w; clock := clock w;
     pages := pages w; shown := shown w; next_ident := next_ident w;
     skip_waiting := skip_waiting w; calls := calls w |}.

Definition set_pages (f : list Page -> list Page) (w : World) : World :=
  {| caches := caches w; network := network w; clock := clock w;
     pages := f (pages w); shown := shown w; next_ident := next_ident w;
     skip_waiting := skip_waiting w; calls := calls w |}.

Definition set_shown (f : list Notification -> list Notification) (w : World)
  : World :=
  {| caches := caches w; network := network w; clock := clock w;
     pages := pages w; shown := f (shown w); next_ident := next_ident w;
     skip_waiting := skip_waiting w; calls := calls w |}.

Definition set_next_ident (n : nat) (w : World) : World :=
  {| caches := caches w; network := network w; clock := clock w;
     pages := pages w; shown := shown w; next_ident := n;
     skip_waiting := skip_waiting w; calls := calls w |}.

Definition set_skip_waiting (b : bool) (w : World) : World :=
  {| caches := caches w; network := network w; clock := clock w;
     pages := pages w; shown := shown w; next_ident := next_ident w;
     skip_waiting := b; calls := calls w |}.

Definition set_calls (f : list Call -> list Call) (w : World) : World :=
  {| caches := caches w; network := network w; clock := clock w;
     pages := pages w; shown := shown w; next_ident := next_ident w;
     skip_waiting := skip_waiting w; calls := f (calls w) |}.

(** *** Computations that may throw *)

Inductive Exn := TypeError | SyntaxError.

Inductive Res (A : Type) :=
| Val (a : A)
| Thrown (e : Exn).
Arguments Thrown {A}.

(** A computation over a state [S]; the state survives an exception. *)
Definition M (S A : Type) := S -> Res A * S.

Definition ret {S A} (a : A) : M S A := fun s => (Val a, s).

Definition throw {S A} (e : Exn) : M S A := fun s => (Thrown e, s).

Definition bind {S A B} (m : M S A) (k : A -> M S B) : M S B :=
  fun s =>
    match m s with
    | (Val a, s') => k a s'
    | (Thrown e, s') => (Thrown e, s')
    end.

(** [try { m } catch (e) { h e }]. *)
Definition try_catch {S A} (m : M S A) (h : Exn -> M S A) : M S A :=
  fun s =>
    match m s with
    | (Val a, s') => (Val a, s')
    | (Thrown e, s') => h e s'
    end.

Declare Scope js_scope.
Delimit Scope js_scope with js.
Notation "x <- m ;; k" := (bind m (fun x => k))
  (at level 61, m at next level, right associativity) : js_scope.
Notation "m ;; k" := (bind m (fun _ => k))
  (at level 61, right associativity) : js_scope.
Local Open Scope js_scope.

(** Code running against the platform. *)
Definition Eff := M World.

(** A promise is the work still to do when the call that made it returns;
    running it settles it: [Val] fulfils, [Thrown] rejects. *)
Definition Promise (A : Type) := Eff A.

(** What a [then] callback returns: a plain value or another promise. *)
Inductive Resolution (A : Type) :=
| Plain (a : A)
| Thenable (p : Promise A).

(** [p.then(f)]. *)
Definition then_ {A B} (p : Promise A) (f : A -> Eff (Resolution B))
  : Promise B :=
  a <- p ;;
  r <- f a ;;
  match r with
  | Plain b => ret b
  | Thenable q => q
  end.

Definition void {A} (p : Promise A) : Promise unit := p ;; ret tt.

Definition log (c : Call) : Eff unit :=
  fun w => (Val tt, set_calls (fun l => l ++ [c]) w).

(** *** The interfaces the scripts call *)

(** [caches.open(name)]: the cache of that name, made empty if there is
    none. *)
Definition caches_open (name : jsstring) : Eff (Promise jsstring) :=
  log (CachesOpen name) ;;
  ret (fun w =>
         (Val name,
          match bucket name (caches w) with
          | Some _ => w
          | None => set_caches (fun st => st ++ [(name, [])]) w
          end)).

(** A response [cache.addAll] accepts: an ok status other than 206. *)
Definition storable (r : Response) : bool :=
  (200 <=? status r) && (status r <=? 299) && negb (status r =? 206).

(** The responses to all the requests, or nothing if one of them fails. *)
Fixpoint fetch_all (net : Request -> FetchOutcome) (reqs : list Request)
  : option (list (Request * Response)) :=
  match reqs with
  | [] => Some []
  | q :: reqs' =>
      match net q with
      | Answer r =>
          if storable r then
            match fetch_all net reqs' with
            | Some es => Some ((q, r) :: es)
            | None => None
            end
          else None
      | NetworkError => None
      end
  end.

Definition put_all (es : list (Request * Response)) (c : Cache) : Cache :=
  fold_left (fun c e => cache_put c (fst e) (snd e)) es c.

(** [cache.addAll(urls)]: every URL is fetched; the entries are written
    only once all of the responses are in, and a failed fetch rejects with a
    TypeError. *)
Definition cache_addAll (cache : jsstring) (urls : list jsstring)
  : Eff (Promise unit) :=
  log (CacheAddAll cache urls) ;;
  ret (fun w =>
         match fetch_all (network w) (map GET urls) with
         | Some es => (Val tt, set_caches (with_bucket cache (put_all es)) w)
         | None => (Thrown TypeError, w)
         end).

(** [caches.match(request)]. *)
Definition caches_match (req : Request) : Eff (Promise (option Response)) :=
  log (CachesMatch req) ;;
  ret (fun w => (Val (storage_match (caches w) req), w)).

(** [fetch(request)]: fulfils with whatever response comes, rejects with a
    TypeError on a network error. *)
Definition fetch (req : Request) : Eff (Promise Response) :=
  log (Fetch req) ;;
  ret (fun w =>
         (match network w req with
          | Answer r => Val r
          | NetworkError => Thrown TypeError
          end, w)).

(** [self.skipWaiting()]. *)
Definition skipWaiting : Eff (Promise unit) :=
  log SkipWaiting ;;
  (fun w => (Val tt, set_skip_waiting true w)) ;;
  ret (ret tt).

(** [clients.claim()]: every open page becomes controlled by this worker. *)
Definition clients_claim : Eff (Promise unit) :=
  log ClientsClaim ;;
  ret (fun w =>
         (Val tt,
          set_pages (map (fun p => {| page_url := page_url p;
                                      controlled := true |})) w)).

(** [clients.openWindow(url)]: a new page on that URL. *)
Definition clients_openWindow (u : jsstring) : Eff (Promise unit) :=
  log (OpenWindow u) ;;
  ret (fun w =>
         (Val tt,
          set_pages (fun ps => ps ++ [{| page_url := u; controlled := true |}])
                    w)).

(** [Date.now()]. *)
Definition Date_now : Eff N := fun w => (Val (clock w), w).

(** [String(n)] for a non-negative integer below 10^21. *)
Definition String_of (n : N) : jsstring :=
  js (NilZero.string_of_uint (N.to_uint n)).

(** Member access [v.k] for a name that no prototype defines (such as
    [title] and [body]): a TypeError on [undefined] and [null], the own
    property of an object, [undefined] otherwise. *)
Definition member {S} (v : value) (k : string) : M S value :=
  match v with
  | VUndefined | VNull => throw TypeError
  | VObject o =>
      ret match lookup (js k) o with Some x => x | None => VUndefined end
  | _ => ret VUndefined
  end.

(** The tag of a notification: the [tag] option, empty when there is none. *)
Definition tag_of (o : value) : jsstring :=
  match o with
  | VObject ps =>
      match lookup (js "tag") ps with
      | Some (VString t) => t
      | _ => []
      end
  | _ => []
  end.

(** [registration.showNotification(title, options)]: the notification is
    displayed; it takes the place of the displayed ones with the same
    non-empty tag. The permission to notify is taken as granted, as it is
    for a worker that receives push messages. The title and the options are
    recorded as the script passes them: what the platform makes of a value
    that is not a string is not modelled. *)
Definition showNotification (t o : value) : Eff (Promise unit) :=
  log (ShowNotification t o) ;;
  ret (fun w =>
         let n := {| ident := next_ident w; title := t; options := o |} in
         let keep (m : Notification) :=
           match tag_of o with
           | [] => true
           | _ :: _ => negb (jsstring_eqb (tag_of (options m)) (tag_of o))
           end in
         (Val tt,
          set_next_ident (S (next_ident w))
            (set_shown (fun l => filter keep l ++ [n]) w))).

(** [notification.close()]. *)
Definition notification_close (n : Notification) : Eff unit :=
  log (NotificationClose n) ;;
  (fun w =>
     (Val tt,
      set_shown (filter (fun m => negb (Nat.eqb (ident m) (ident n)))) w)).

(** *** Events *)

(** What an event collects while its listener runs: the promises given to
    [waitUntil], and the one given to [respondWith]. *)
Record EventState := {
  world : World;
  lifetime : list (Promise unit);
  response : option (Promise Response)
}.

Definition Handler := M EventState.

Definition lift {A} (m : Eff A) : Handler A :=
  fun s =>
    let '(r, w) := m (world s) in
    (r, {| world := w; lifetime := lifetime s; response := response s |}).

(** [event.waitUntil(p)]. *)
Definition waitUntil {A} (p : Promise A) : Handler unit :=
  fun s =>
    (Val tt, {| world := world s; lifetime := lifetime s ++ [void p];
                response := response s |}).

(** [event.respondWith(p)]. *)
Definition respondWith (p : Promise Response) : Handler unit :=
  fun s =>
    (Val tt, {| world := world s; lifetime := lifetime s;
                response := Some p |}).

(** The payload of a push message is modelled by its text: [text()] gives
    it and [json()] parses it. *)
Definition PushMessageData := jsstring.

Definition text (d : PushMessageData) : jsstring := d.

Definition json {S} (d : PushMessageData) : M S value :=
  match JSON_parse d with
  | Some v => ret v
  | None => throw SyntaxError
  end.

Inductive Event :=
| Install
| Activate
| FetchEvent (request : Request)
| Push (data : option PushMessageData)
| NotificationClick (notification : Notification).

(** What became of an event: the exception its listener let through, how
    the promises it gave to [waitUntil] settled, and the response. *)
Record Outcome := {
  uncaught : option Exn;
  settled : list (Res unit);
  responded : option (Res Response)
}.

Fixpoint settle_all (ps : list (Promise unit)) (w : World)
  : list (Res unit) * World :=
  match ps with
  | [] => ([], w)
  | p :: ps' =>
      let '(r, w1) := p w in
      let '(rs, w2) := settle_all ps' w1 in
      (r :: rs, w2)
  end.

(** An event is handed to its listener, if there is one; the listener runs
    to its end, then the promises it registered are settled. *)
Definition deliver (listener : option (Handler unit)) (w : World)
  : Outcome * World :=
  match listener with
  | None => ({| uncaught := None; settled := []; responded := None |}, w)
  | Some h =>
      let '(r, s) :=
        h {| world := w; lifetime := []; response := None |} in
      let '(rs, w1) := settle_all (lifetime s) (world s) in
      let '(resp, w2) :=
        match response s with
        | Some p => let '(x, w') := p w1 in (Some x, w')
        | None => (None, w1)
        end in
      ({| uncaught := match r with Val _ => None | Thrown e => Some e end;
          settled := rs; responded := resp |}, w2)
  end.

End Platform.

(** ** The worker scripts *)

Module Worker.

Import Platform.
Local Open Scope js_scope.

(** The title literal of the scripts: W h o U+2019 s, a space, O u t. *)
Definition default_title : jsstring := js "Who" ++ [8217%N] ++ js "s Out".

(** *** static/service-worker.js *)

Module Static.

Definition install : Handler unit :=
  p <- lift (caches_open (js "whosout-v1")) ;;
  waitUntil
    (then_ p (fun cache =>
       q <- cache_addAll cache
              [js "/"; js "/index.html"; js "/manifest.json";
               js "/icon-192.png"; js "/icon-512.png"] ;;
       ret (Thenable q))) ;;
  _ <- lift skipWaiting ;;
  ret tt.

Definition activate : Handler unit :=
  p <- lift clients_claim ;;
  waitUntil p.

(** [r || fetch(event.request)]: a response is an object, hence truthy;
    without a match [r] is [undefined]. *)
Definition fetch (request : Request) : Handler unit :=
  p <- lift (caches_match request) ;;
  respondWith
    (then_ p (fun r =>
       match r with
       | Some resp => ret (Plain resp)
       | None => q <- Platform.fetch request ;; ret (Thenable q)
       end)).

Definition push (event_data : option PushMessageData) : Handler unit :=
  data <- try_catch
            (match event_data with
             | Some d => json d
             | None => ret (VObject [])
             end)
            (fun _ =>
               ret (VObject
                      [(js "title", VString default_title);
                       (js "body",
                        match event_data with
                        | Some d => VString (text d)
                        | None => VNull
                        end)])) ;;
  t <- member data "title" ;;
  let title := or_else t (VString default_title) in
  b <- member data "body" ;;
  now <- lift Date_now ;;
  let options :=
    VObject [(js "body", or_else b (VString []));
             (js "icon", VString (js "/icon-192.png"));
             (js "badge", VString (js "/icon-192.png"));
             (js "tag", VString (String_of now));
             (js "renotify", VBool false)] in
  p <- lift (showNotification title options) ;;
  waitUntil p.

Definition notificationclick (notification : Notification) : Handler unit :=
  lift (notification_close notification) ;;
  p <- lift (clients_openWindow (js "/")) ;;
  waitUntil p.

(** The listeners the script registers. *)
Definition listener (ev : Event) : option (Handler unit) :=
  match ev with
  | Install => Some install
  | Activate => Some activate
  | FetchEvent request => Some (fetch request)
  | Push data => Some (push data)
  | NotificationClick n => Some (notificationclick n)
  end.

End Static.

(** *** The shorter script *)

Module Basic.

Definition install : Handler unit :=
  p <- lift (caches_open (js "whosout-v1")) ;;
  waitUntil
    (then_ p (fun cache =>
       q <- cache_addAll cache [js "/"; js "/index.html"; js "/manifest.json"] ;;
       ret (Thenable q))).

Definition fetch (request : Request) : Handler unit :=
  p <- lift (caches_match request) ;;
  respondWith
    (then_ p (fun r =>
       match r with
       | Some resp => ret (Plain resp)
       | None => q <- Platform.fetch request ;; ret (Thenable q)
       end)).

Definition push (event_data : option PushMessageData) : Handler unit :=
  data <- match event_data with
          | Some d => json d
          | None => ret (VObject [])
          end ;;
  t <- member data "title" ;;
  let title := or_else t (VString default_title) in
  b <- member data "body" ;;
  let options :=
    VObject [(js "body", or_else b (VString []));
             (js "icon", VString (js "/icon-192.png"));
             (js "badge", VString (js "/icon-192.png"))] in
  p <- lift (showNotification title options) ;;
  waitUntil p.

Definition notificationclick (notification : Notification) : Handler unit :=
  lift (notification_close notification) ;;
  p <- lift (clients_openWindow (js "/")) ;;
  waitUntil p.

(** The listeners the script registers: none for [activate]. *)
Definition listener (ev : Event) : option (Handler unit) :=
  match ev with
  | Install => Some install
  | Activate => None
  | FetchEvent request => Some (fetch request)
  | Push data => Some (push data)
  | NotificationClick n => Some (notificationclick n)
  end.

End Basic.

Inductive Variant := StaticScript | BasicScript.

Definition listener (v : Variant) : Event -> option (Handler unit) :=
  match v with
  | StaticScript => Static.listener
  | BasicScript => Basic.listener
  end.

(** The reaction of a variant to an event. *)
Definition react (v : Variant) (ev : Event) (w : World) : Outcome * World :=
  deliver (listener v ev) w.

(** The cache bucket and the pending asset list of each variant. *)
Definition cache_name : jsstring := js "whosout-v1".

Definition assets (v : Variant) : list jsstring :=
  match v with
  | StaticScript =>
      [js "/"; js "/index.html"; js "/manifest.json";
       js "/icon-192.png"; js "/icon-512.png"]
  | BasicScript => [js "/"; js "/index.html"; js "/manifest.json"]
  end.

End Worker.

(** ** Observations on worlds and outcomes *)

Module Observe.

Import Platform Worker.

(** What the transport gives the script for a request. *)
Definition transport (w : World) (req : Request) : Res Response :=
  match network w req with
  | Answer r => Val r
  | NetworkError => Thrown TypeError
  end.

(** The entries of the bucket of the scripts, none before it is made. *)
Definition bucket_entries (w : World) : Cache :=
  match bucket cache_name (caches w) with
  | Some c => c
  | None => []
  end.

(** A property of an options object, if it has it. *)
Definition option_of (o : value) (k : string) : option value :=
  match o with
  | VObject ps => lookup (js k) ps
  | _ => None
  end.

(** A world to try the reactions on: one uncontrolled page, an empty cache
    storage, a network that answers 200 everywhere but on [/icon-512.png]. *)
Definition sample_world : World :=
  {| caches := [];
     network := fun r =>
       if jsstring_eqb (url r) (js "/icon-512.png") then NetworkError
       else Answer {| status := 200; payload := url r |};
     clock := 1700000000000;
     pages := [{| page_url := js "/"; controlled := false |}];
     shown := [];
     next_ident := 0;
     skip_waiting := false;
     calls := [] |}.

(** The reaction that led from [w] to [w'] displayed one notification, with
    title [t] and options [o]. *)
Definition displays (w w' : World) (t o : value) : Prop :=
  calls w' = calls w ++ [ShowNotification t o] /\
  In {| ident := next_ident w; title := t; options := o |} (shown w').

(** The title as the specification spells it, with an ASCII apostrophe. *)
Definition ascii_title : jsstring := js "Who's Out".

(** Push payloads to try the reactions on. *)
Definition meeting_payload : PushMessageData :=
  quoted "{'title':'Meeting','body':'Alice is out'}".

Definition plain_payload : PushMessageData := js "Bob is out today".

Definition empty_title_payload : PushMessageData :=
  quoted "{'title':'','body':'Alice is out'}".

Definition falsy_payload : PushMessageData :=
  quoted "{'title':'','body':0}".

(** Whether the transport answers the request for an asset with a response
    that [cache.addAll] accepts. *)
Definition asset_ok (w : World) (u : jsstring) : bool :=
  match network w (GET u) with
  | Answer r => storable r
  | NetworkError => false
  end.

(** The same world at another time. *)
Definition at_time (t : N) (w : World) : World :=
  {| caches := caches w; network := network w; clock := t;
     pages := pages w; shown := shown w; next_ident := next_ident w;
     skip_waiting := skip_waiting w; calls := calls w |}.

(** More payloads: JSON that is not an object. *)
Definition null_payload : PushMessageData := js "null".

Definition string_payload : PushMessageData := quoted "'on leave'".

Definition no_fields_payload : PushMessageData := js "{}".

(** A request that is not a GET. *)
Definition post_root : Request := {| method := js "POST"; url := js "/" |}.

(** The requests of a cache that a list of keys would replace. *)
Definition replaced_by (keys : list Request) (e : Request * Response) : bool :=
  existsb (fun k => request_matches k (fst e)) keys.

(** The keys of a batch are GET requests on distinct URLs. *)
Definition distinct_gets (es : list (Request * Response)) : Prop :=
  Forall (fun e => method (fst e) = js "GET") es /\
  NoDup (map (fun e => url (fst e)) es).

(** Cache storage once [caches.open] has settled for a name. *)
Definition opened (name : jsstring) (st : CacheStorage) : CacheStorage :=
  match bucket name st with
  | Some _ => st
  | None => st ++ [(name, [])]
  end.

(** Whether a displayed notification stays when one with options [o] is
    displayed: it does unless it has the same tag, and that tag is not
    empty. *)
Definition survives (o : value) (m : Notification) : bool :=
  match tag_of o with
  | [] => true
  | _ :: _ => negb (jsstring_eqb (tag_of (options m)) (tag_of o))
  end.

(** A value that has no members to read and is not [null] or [undefined]:
    a boolean, a number, a string or an array. *)
Definition memberless (x : value) : bool :=
  match x with
  | VBool _ | VNumber _ | VString _ | VArray _ => true
  | VUndefined | VNull | VObject _ => false
  end.

(** A world whose storage has an older cache beside the bucket: the older
    cache holds a response for [/x], the bucket holds nothing, and the
    transport would answer [/x] otherwise. *)
Definition stale_response : Response := {| status := 200; payload := js "old" |}.

Definition two_cache_world : World :=
  {| caches := [(js "other-v0", [(GET (js "/x"), stale_response)]);
                (cache_name, [])];
     network := fun r => Answer {| status := 200; payload := js "new" |};
     clock := 1700000000000;
     pages := [];
     shown := [];
     next_ident := 0;
     skip_waiting := false;
     calls := [] |}.

End Observe.

(** ** Facts on the JSON parser *)

Module JSFacts.

Import JS.

(** [fuel_for] is always enough. *)

Section Fuel.

Local Open Scope nat_scope.
Local Abbreviation length := (@List.length N).

Ltac break_hyp H :=
  repeat match type of H with
         | context [match ?x with _ => _ end] => destruct x eqn:?
         end.

Lemma skip_ws_length (s : jsstring) : length (skip_ws s) <= length s.
Proof.
  induction s as [|c s IH]; simpl; [lia|].
  destruct (is_ws c); simpl; lia.
Qed.

Lemma skip_ws_cons (s : jsstring) c r :
  skip_ws s = c :: r -> S (length r) <= length s.
Proof.
  intros H. pose proof (skip_ws_length s) as L. rewrite H in L. exact L.
Qed.

Lemma parse_chars_bound (n : nat) :
  forall s str rest,
    length s <= n -> parse_chars s = Some (str, rest) -> length rest < length s.
Proof.
  induction n as [|n IH]; intros s str rest L H;
    destruct s as [|c r]; simpl in H, L; try discriminate; [lia|].
  break_hyp H; try discriminate; inversion H; subst; simpl; try lia;
    match goal with
    | E : parse_chars _ = Some _ |- _ =>
        apply IH in E; simpl in *; lia
    end.
Qed.

Lemma parse_chars_length (s : jsstring) str rest :
  parse_chars s = Some (str, rest) -> length rest < length s.
Proof. apply (parse_chars_bound (n := length s)). lia. Qed.

Lemma take_digits_length (s : jsstring) :
  length (snd (take_digits s)) <= length s.
Proof.
  induction s as [|c r IH]; simpl; [lia|].
  destruct (is_digit c); simpl; [|lia].
  destruct (take_digits r); simpl in *; lia.
Qed.

Lemma parse_int_length s ip rest :
  parse_int s = Some (ip, rest) -> length rest < length s.
Proof.
  unfold parse_int. intros H. destruct s as [|c r]; [discriminate|].
  destruct (N.eqb c 48); [inversion H; subst; simpl; lia|].
  destruct (is_digit c) eqn:D; [|discriminate].
  inversion H as [E]. simpl in E. rewrite D in E.
  pose proof (take_digits_length r) as L.
  destruct (take_digits r); inversion E; subst; simpl in *; lia.
Qed.

Lemma parse_frac_length s fp rest :
  parse_frac s = Some (fp, rest) -> length rest <= length s.
Proof.
  unfold parse_frac. intros H. destruct s as [|c r]; [inversion H; simpl; lia|].
  destruct (N.eqb c 46); [|inversion H; subst; lia].
  pose proof (take_digits_length r) as L.
  destruct (take_digits r) as [[|d ds] t]; [discriminate|].
  inversion H; subst; simpl in *; lia.
Qed.

Lemma parse_exp_length s e rest :
  parse_exp s = Some (e, rest) -> length rest <= length s.
Proof.
  unfold parse_exp. intros H. destruct s as [|c r]; [inversion H; simpl; lia|].
  destruct (N.eqb c 101 || N.eqb c 69); [|inversion H; subst; lia].
  destruct r as [|c1 r'].
  - simpl in H. discriminate.
  - destruct (N.eqb c1 45).
    + pose proof (take_digits_length r') as L.
      destruct (take_digits r') as [[|d ds] t]; [discriminate|].
      inversion H; subst; simpl in *; lia.
    + destruct (N.eqb c1 43).
      * pose proof (take_digits_length r') as L.
        destruct (take_digits r') as [[|d ds] t]; [discriminate|].
        inversion H; subst; simpl in *; lia.
      * pose proof (take_digits_length (c1 :: r')) as L.
        destruct (take_digits (c1 :: r')) as [[|d ds] t]; [discriminate|].
        inversion H; subst; simpl in *; lia.
Qed.

Lemma parse_number_length s v rest :
  parse_number s = Parsed v rest -> length rest < length s.
Proof.
  unfold parse_number. intros H.
  assert (forall s1, length s1 <= length s ->
    match parse_int s1 with
    | Some (ip, s2) =>
        match parse_frac s2 with
        | Some (fp, s3) =>
            match parse_exp s3 with
            | Some (e, s4) => length s4 < length s
            | None => True
            end
        | None => True
        end
    | None => True
    end) as K.
  { intros s1 L1. destruct (parse_int s1) as [[ip s2]|] eqn:E1; [|exact I].
    apply parse_int_length in E1.
    destruct (parse_frac s2) as [[fp s3]|] eqn:E2; [|exact I].
    apply parse_frac_length in E2.
    destruct (parse_exp s3) as [[e s4]|] eqn:E3; [|exact I].
    apply parse_exp_length in E3. lia. }
  destruct s as [|c r].
  - simpl in H. discriminate.
  - destruct (N.eqb c 45).
    + specialize (K r ltac:(simpl; lia)).
      destruct (parse_int r) as [[ip s2]|]; [|discriminate].
      destruct (parse_frac s2) as [[fp s3]|]; [|discriminate].
      destruct (parse_exp s3) as [[e s4]|]; [|discriminate].
      inversion H; subst. exact K.
    + specialize (K (c :: r) ltac:(lia)).
      destruct (parse_int (c :: r)) as [[ip s2]|]; [|discriminate].
      destruct (parse_frac s2) as [[fp s3]|]; [|discriminate].
      destruct (parse_exp s3) as [[e s4]|]; [|discriminate].
      inversion H; subst. exact K.
Qed.

Lemma expect_length lit s rest :
  expect lit s = Some rest -> length rest + length lit = length s.
Proof.
  revert s. induction lit as [|l lit IH]; intros s H; simpl in H.
  - inversion H; subst. simpl. lia.
  - destruct s as [|c s']; [discriminate|].
    destruct (N.eqb l c); [|discriminate].
    apply IH in H. simpl. lia.
Qed.

Lemma parse_literal_length lit v s w rest :
  lit <> EmptyString ->
  parse_literal lit v s = Parsed w rest -> length rest < length s.
Proof.
  unfold parse_literal. intros NE H.
  destruct (expect (js lit) s) eqn:E; [|discriminate].
  inversion H; subst. apply expect_length in E.
  destruct lit; [contradiction|]. simpl in E. lia.
Qed.

Ltac consumed IHv IHe IHm :=
  repeat match goal with
         | E : skip_ws _ = _ :: _ |- _ => apply skip_ws_cons in E
         | E : parse_chars _ = Some _ |- _ => apply parse_chars_length in E
         | E : parse_number _ = Parsed _ _ |- _ =>
             apply parse_number_length in E
         | E : parse_literal _ _ _ = Parsed _ _ |- _ =>
             apply parse_literal_length in E; [|discriminate]
         | E : parse_value _ _ = Parsed _ _ |- _ => apply IHv in E
         | E : parse_elements _ _ = Parsed _ _ |- _ => apply IHe in E
         | E : parse_members _ _ _ = Parsed _ _ |- _ => apply IHm in E
         end.

(** A successful parse consumes at least one code unit. *)
Lemma parse_consumes (f : nat) :
  (forall s v rest, parse_value f s = Parsed v rest -> length rest < length s) /\
  (forall s vs rest,
      parse_elements f s = Parsed vs rest -> length rest < length s) /\
  (forall s o o' rest,
      parse_members f s o = Parsed o' rest -> length rest < length s).
Proof.
  induction f as [|f [IHv [IHe IHm]]]; [repeat split; discriminate|].
  repeat split.
  - intros s v rest H. simpl in H.
    break_hyp H; try discriminate; inversion H; subst; clear H;
      consumed IHv IHe IHm; simpl in *; lia.
  - intros s vs rest H. simpl in H.
    break_hyp H; try discriminate; inversion H; subst; clear H;
      consumed IHv IHe IHm; simpl in *; lia.
  - intros s o o' rest H. simpl in H.
    break_hyp H; try discriminate; try (inversion H; subst; clear H);
      consumed IHv IHe IHm; simpl in *; lia.
Qed.

Lemma parse_number_fuel s : parse_number s <> OutOfFuel.
Proof.
  unfold parse_number. intros H. break_hyp H; discriminate.
Qed.

Lemma parse_literal_fuel lit v s : parse_literal lit v s <> OutOfFuel.
Proof.
  unfold parse_literal. destruct (expect (js lit) s); discriminate.
Qed.

Ltac fuelled IHv IHe IHm :=
  match goal with
  | E : parse_number _ = OutOfFuel |- _ =>
      apply parse_number_fuel in E; contradiction
  | E : parse_literal _ _ _  = OutOfFuel |- _ =>
      apply parse_literal_fuel in E; contradiction
  | E : parse_value _ _ = OutOfFuel |- _ => apply IHv in E; [contradiction|]
  | E : parse_elements _ _ = OutOfFuel |- _ => apply IHe in E; [contradiction|]
  | E : parse_members _ _ _ = OutOfFuel |- _ => apply IHm in E; [contradiction|]
  end.

(** With fuel above twice the length of the text, the parser does not run
    out of fuel. *)
Lemma parse_fuel (f : nat) :
  (forall s, 2 * length s + 1 <= f -> parse_value f s <> OutOfFuel) /\
  (forall s, 2 * length s + 2 <= f -> parse_elements f s <> OutOfFuel) /\
  (forall s o, 2 * length s + 2 <= f -> parse_members f s o <> OutOfFuel).
Proof.
  induction f as [|f [IHv [IHe IHm]]]; [repeat split; intros; lia|].
  destruct (parse_consumes f) as [Cv [Ce Cm]].
  repeat split.
  - intros s L H. cbn [parse_value] in H.
    break_hyp H; try discriminate;
      fuelled IHv IHe IHm; consumed Cv Ce Cm; simpl in *; lia.
  - intros s L H. cbn [parse_elements] in H.
    break_hyp H; try discriminate;
      fuelled IHv IHe IHm; consumed Cv Ce Cm; simpl in *; lia.
  - intros s o L H. cbn [parse_members] in H.
    break_hyp H; try discriminate;
      fuelled IHv IHe IHm; consumed Cv Ce Cm; simpl in *; lia.
Qed.

Ltac use_more K g :=
  lapply K; [clear K; intros K | discriminate];
  specialize (K g);
  lapply K; [clear K; intros K; rewrite K; clear K | lia].

Ltac same_with_more IHv IHe IHm g :=
  match goal with
  | |- context [parse_value ?f ?a] =>
      tryif constr_eq f g then fail else idtac;
      let E := fresh "E" in
      let K := fresh "K" in
      destruct (parse_value f a) eqn:E;
      [ pose proof (IHv _ _ E) as K; use_more K g
      | pose proof (IHv _ _ E) as K; use_more K g
      | exfalso; cbn in *; congruence ]
  | |- context [parse_elements ?f ?a] =>
      tryif constr_eq f g then fail else idtac;
      let E := fresh "E" in
      let K := fresh "K" in
      destruct (parse_elements f a) eqn:E;
      [ pose proof (IHe _ _ E) as K; use_more K g
      | pose proof (IHe _ _ E) as K; use_more K g
      | exfalso; cbn in *; congruence ]
  | |- context [parse_members ?f ?a ?o] =>
      tryif constr_eq f g then fail else idtac;
      let E := fresh "E" in
      let K := fresh "K" in
      destruct (parse_members f a o) eqn:E;
      [ pose proof (IHm _ _ _ E) as K; use_more K g
      | pose proof (IHm _ _ _ E) as K; use_more K g
      | exfalso; cbn in *; congruence ]
  | |- context [match ?x with _ => _ end] => destruct x eqn:?
  end.

(** More fuel does not change what the parser finds. *)
Lemma parse_more_fuel (f : nat) :
  (forall s r, parse_value f s = r -> r <> OutOfFuel ->
               forall g, f <= g -> parse_value g s = r) /\
  (forall s r, parse_elements f s = r -> r <> OutOfFuel ->
               forall g, f <= g -> parse_elements g s = r) /\
  (forall s o r, parse_members f s o = r -> r <> OutOfFuel ->
                 forall g, f <= g -> parse_members g s o = r).
Proof.
  induction f as [|f [IHv [IHe IHm]]].
  - repeat split; intros; subst; simpl in *; congruence.
  - repeat split.
    + intros s r H NE [|g] L; [lia|]. subst r.
      cbn [parse_value] in *.
      repeat same_with_more IHv IHe IHm g; reflexivity.
    + intros s r H NE [|g] L; [lia|]. subst r.
      cbn [parse_elements] in *.
      repeat same_with_more IHv IHe IHm g; reflexivity.
    + intros s o r H NE [|g] L; [lia|]. subst r.
      cbn [parse_members] in *.
      repeat same_with_more IHv IHe IHm g; reflexivity.
Qed.

End Fuel.

(** [JSON.parse] fails only on a malformed text: the fuel never runs out. *)
Lemma parse_value_fuel (text : jsstring) :
  parse_value (fuel_for text) text <> OutOfFuel.
Proof.
  apply (proj1 (parse_fuel (fuel_for text))). unfold fuel_for. lia.
Qed.

(** What [JSON.parse] finds is what the parser finds with any larger fuel. *)
Lemma parse_value_any_fuel (text : jsstring) (g : nat) :
  fuel_for text <= g ->
  parse_value g text = parse_value (fuel_for text) text.
Proof.
  intros L.
  apply (proj1 (parse_more_fuel (fuel_for text))); auto.
  apply parse_value_fuel.
Qed.

(** The parser at work. *)

Example parse_object :
  JSON_parse (quoted "{'title':'Meeting','body':'Alice is out'}") =
    Some (VObject [(js "title", VString (js "Meeting"));
                   (js "body", VString (js "Alice is out"))]).
Proof. reflexivity. Qed.

Example parse_nested :
  JSON_parse (quoted " [1, {'a' : [true, null]}, 'xA\n'] ") =
    Some (VArray [VNumber {| neg := false; mant := 1; exp10 := 0 |};
                  VObject [(js "a", VArray [VBool true; VNull])];
                  VString [120; 65; 10]%N]).
Proof. reflexivity. Qed.

Example parse_duplicate_key :
  JSON_parse (quoted "{'title':'a','body':'b','title':'c'}") =
    Some (VObject [(js "title", VString (js "c"));
                   (js "body", VString (js "b"))]).
Proof. reflexivity. Qed.

Example parse_number_parts :
  JSON_parse (js "-12.50e3") =
    Some (VNumber {| neg := true; mant := 1250; exp10 := 1 |}).
Proof. reflexivity. Qed.

Example parse_plain_text : JSON_parse (js "Bob is out today") = None.
Proof. reflexivity. Qed.

Example parse_empty_text : JSON_parse [] = None.
Proof. reflexivity. Qed.

Example parse_leading_zero : JSON_parse (js "01") = None.
Proof. reflexivity. Qed.

Example parse_trailing_comma : JSON_parse (quoted "{'a':1,}") = None.
Proof. reflexivity. Qed.

Example zero_is_falsy :
  option_map to_boolean (JSON_parse (js "-0.0e7")) = Some false /\
  option_map to_boolean (JSON_parse (js "1e-320")) = Some true /\
  option_map to_boolean (JSON_parse (js "1e-400")) = Some false.
Proof. repeat split; vm_compute; reflexivity. Qed.

End JSFacts.

(** ** Facts on strings and caches *)

Module PlatformFacts.

Import Platform.

Lemma jsstring_eqb_eq (a b : jsstring) : jsstring_eqb a b = true <-> a = b.
Proof.
  revert b. induction a as [|x a IH]; intros [|y b]; simpl;
    try (split; [discriminate|discriminate]); [tauto|].
  rewrite andb_true_iff, N.eqb_eq, IH.
  split; [intros [-> ->]; reflexivity | intros E; inversion E; auto].
Qed.

Lemma jsstring_eqb_refl (a : jsstring) : jsstring_eqb a a = true.
Proof. apply jsstring_eqb_eq. reflexivity. Qed.

Lemma request_matches_spec (q k : Request) :
  request_matches q k = true <-> method q = js "GET" /\ url q = url k.
Proof.
  unfold request_matches. rewrite andb_true_iff, !jsstring_eqb_eq. tauto.
Qed.

(** A lookup after a [put]: the new entry answers the requests that match
    its key, the others are answered as before. *)
Lemma cache_match_put (c : Cache) (k : Request) (r : Response) (q : Request) :
  method k = js "GET" ->
  cache_match (cache_put c k r) q =
    if request_matches q k then Some r else cache_match c q.
Proof.
  intros G. unfold cache_put.
  induction c as [|[k' r'] c IH]; simpl.
  - destruct (request_matches q k); reflexivity.
  - destruct (request_matches k k') eqn:K; simpl.
    + rewrite IH. apply request_matches_spec in K. destruct K as [_ U].
      destruct (request_matches q k) eqn:Q; [reflexivity|].
      destruct (request_matches q k') eqn:Q'; [|reflexivity].
      apply request_matches_spec in Q'. destruct Q' as [M U'].
      assert (request_matches q k = true) as C
        by (apply request_matches_spec; split; congruence).
      congruence.
    + rewrite IH.
      destruct (request_matches q k') eqn:Q'; [|reflexivity].
      destruct (request_matches q k) eqn:Q; [|reflexivity].
      apply request_matches_spec in Q, Q'.
      assert (request_matches k k' = true) as C
        by (apply request_matches_spec; split; [assumption|];
            destruct Q, Q'; congruence).
      congruence.
Qed.

(** What [fetch_all] gives: a response for each request, in order. *)
Lemma fetch_all_some (net : Request -> FetchOutcome) (reqs : list Request) :
  forall es,
    fetch_all net reqs = Some es ->
    map fst es = reqs /\
    Forall (fun e => net (fst e) = Answer (snd e)) es.
Proof.
  induction reqs as [|q reqs IH]; simpl; intros es H.
  - inversion H. split; constructor.
  - destruct (net q) as [|r] eqn:N; [discriminate|].
    destruct (storable r); [|discriminate].
    destruct (fetch_all net reqs) as [es'|]; [|discriminate].
    inversion H; subst. destruct (IH es' eq_refl) as [E F].
    split; simpl; [congruence|]. constructor; auto.
Qed.

Lemma put_all_match (net : Request -> FetchOutcome)
  (es : list (Request * Response)) :
  Forall (fun e => method (fst e) = js "GET" /\ net (fst e) = Answer (snd e))
         es ->
  forall (c : Cache) (u : jsstring) (r : Response),
    net (GET u) = Answer r ->
    cache_match c (GET u) = Some r \/ In (GET u) (map fst es) ->
    cache_match (put_all es c) (GET u) = Some r.
Proof.
  unfold put_all.
  induction 1 as [|[k x] es [G A] _ IH]; simpl; intros c u r N H.
  - destruct H as [H|[]]. exact H.
  - simpl in G, A. apply IH; [exact N|].
    rewrite cache_match_put by exact G.
    destruct (request_matches (GET u) k) eqn:Q.
    + left. apply request_matches_spec in Q. destruct Q as [_ U].
      assert (k = GET u) as -> by (destruct k; unfold GET; simpl in *; congruence).
      congruence.
    + destruct H as [H|[H|H]]; [left; exact H | | right; exact H].
      subst k. exfalso.
      assert (request_matches (GET u) (GET u) = true) as C
        by (apply request_matches_spec; split; reflexivity).
      congruence.
Qed.

Lemma bucket_with_bucket (name : jsstring) (f : Cache -> Cache)
  (st : CacheStorage) :
  bucket name (with_bucket name f st) = option_map f (bucket name st).
Proof.
  induction st as [|[n c] st IH]; simpl; [reflexivity|].
  destruct (jsstring_eqb name n) eqn:E; simpl; rewrite E; auto.
Qed.

Lemma bucket_new (name : jsstring) (st : CacheStorage) :
  bucket name st = None -> bucket name (st ++ [(name, [])]) = Some [].
Proof.
  induction st as [|[n c] st IH]; simpl; intros H.
  - rewrite jsstring_eqb_refl. reflexivity.
  - destruct (jsstring_eqb name n); [discriminate|auto].
Qed.

(** What a match in a cache, and in the storage, stands for. *)
Lemma cache_match_some (c : Cache) (q : Request) (r : Response) :
  cache_match c q = Some r ->
  exists k, In (k, r) c /\ method q = js "GET" /\ url q = url k.
Proof.
  induction c as [|[k r'] c IH]; simpl; intros H; [discriminate|].
  destruct (request_matches q k) eqn:M.
  - inversion H; subst. exists k. split; [left; reflexivity|].
    apply request_matches_spec. exact M.
  - destruct (IH H) as (k' & I & G). exists k'. split; [right; exact I|exact G].
Qed.

Lemma cache_match_none (c : Cache) (q : Request) :
  cache_match c q = None ->
  forall k r, In (k, r) c -> ~ (method q = js "GET" /\ url q = url k).
Proof.
  induction c as [|[k' r'] c IH]; simpl; intros H k r I; [contradiction|].
  destruct (request_matches q k') eqn:M; [discriminate|].
  destruct I as [I|I].
  - inversion I; subst. intros G. apply request_matches_spec in G. congruence.
  - exact (IH H k r I).
Qed.

Lemma storage_match_some (st : CacheStorage) (q : Request) (r : Response) :
  storage_match st q = Some r ->
  exists n c k,
    In (n, c) st /\ In (k, r) c /\ method q = js "GET" /\ url q = url k.
Proof.
  induction st as [|[n c] st IH]; simpl; intros H; [discriminate|].
  destruct (cache_match c q) as [r'|] eqn:M.
  - inversion H; subst. destruct (cache_match_some _ _ M) as (k & I & G).
    exists n, c, k. split; [left; reflexivity|]. split; assumption.
  - destruct (IH H) as (n' & c' & k & I & J & G).
    exists n', c', k. split; [right; exact I|]. split; assumption.
Qed.

Lemma storage_match_none (st : CacheStorage) (q : Request) :
  storage_match st q = None ->
  forall n c k r,
    In (n, c) st -> In (k, r) c -> ~ (method q = js "GET" /\ url q = url k).
Proof.
  induction st as [|[n' c'] st IH]; simpl; intros H n c k r I J;
    [contradiction|].
  destruct (cache_match c' q) as [r'|] eqn:M; [discriminate|].
  destruct I as [I|I].
  - inversion I; subst. exact (cache_match_none _ _ M _ _ J).
  - exact (IH H n c k r I J).
Qed.

End PlatformFacts.

(** ** What the reactions guarantee *)

Module Properties.

Import Platform Worker Observe PlatformFacts.

Ltac trace := cbn; rewrite <- ?app_assoc; cbn; auto.

(** C1 as it is written fails where the storage has another cache: the
    bucket has no entry for the request, yet both variants answer with the
    response of the older cache and do not call the network. *)
Lemma fetch_other_cache_counterexample :
  cache_match (bucket_entries two_cache_world) (GET (js "/x")) = None /\
  transport two_cache_world (GET (js "/x")) <> Val stale_response /\
  (responded (fst (react StaticScript (FetchEvent (GET (js "/x")))
                     two_cache_world)) = Some (Val stale_response) /\
   calls (snd (react StaticScript (FetchEvent (GET (js "/x")))
                 two_cache_world)) = [CachesMatch (GET (js "/x"))]) /\
  (responded (fst (react BasicScript (FetchEvent (GET (js "/x")))
                     two_cache_world)) = Some (Val stale_response) /\
   calls (snd (react BasicScript (FetchEvent (GET (js "/x")))
                 two_cache_world)) = [CachesMatch (GET (js "/x"))]).
Proof.
  split; [reflexivity|]. split; [discriminate|].
  split; split; reflexivity.
Qed.

(** C1, amended. Fetch reaction: the request is first looked up in the
    whole cache storage of the origin, every cache in creation order and
    not the bucket alone, where an entry matches a request that is a GET of
    the same URL. On a match the first matching cached response is the
    answer and the network is not called; without a match in any cache the
    network is called exactly once and what it gives, response or failure,
    is the answer unchanged. Both variants. *)
Theorem fetch_cache_first (v : Variant) (req : Request) (w : World) :
  let o := fst (react v (FetchEvent req) w) in
  let w' := snd (react v (FetchEvent req) w) in
  uncaught o = None /\
  match storage_match (caches w) req with
  | Some r =>
      responded o = Some (Val r) /\
      calls w' = calls w ++ [CachesMatch req] /\
      exists name c k,
        In (name, c) (caches w) /\ In (k, r) c /\
        method req = js "GET" /\ url req = url k
  | None =>
      responded o = Some (transport w req) /\
      calls w' = calls w ++ [CachesMatch req; Fetch req] /\
      forall name c k r,
        In (name, c) (caches w) -> In (k, r) c ->
        ~ (method req = js "GET" /\ url req = url k)
  end.
Proof.
  pose proof (@storage_match_some (caches w) req) as S.
  pose proof (@storage_match_none (caches w) req) as N.
  destruct v; cbn; unfold transport;
    destruct (storage_match (caches w) req) as [r|]; cbn;
    try destruct (network w req); cbn; rewrite <- ?app_assoc; cbn;
    repeat split; auto; exact (N eq_refl).
Qed.

(** C6. The fetch reaction leaves cache storage as it found it, on a match
    as on a miss, whatever the network answers. Both variants. *)
Theorem fetch_keeps_caches (v : Variant) (req : Request) (w : World) :
  caches (snd (react v (FetchEvent req) w)) = caches w.
Proof.
  destruct v; cbn;
    destruct (storage_match (caches w) req); cbn;
    try destruct (network w req); reflexivity.
Qed.

(** C8. Notification click: the clicked notification is closed first, then
    one window is opened on the root path; whichever notification it was.
    Both variants. *)
Theorem click_closes_then_opens_root (v : Variant) (n : Notification)
  (w : World) :
  let o := fst (react v (NotificationClick n) w) in
  let w' := snd (react v (NotificationClick n) w) in
  uncaught o = None /\
  settled o = [Val tt] /\
  calls w' = calls w ++ [NotificationClose n; OpenWindow (js "/")] /\
  shown w' = filter (fun m => negb (Nat.eqb (ident m) (ident n))) (shown w) /\
  pages w' = pages w ++ [{| page_url := js "/"; controlled := true |}].
Proof.
  destruct v; trace; repeat split; trace.
Qed.

(** C7 as it is written fails on the shorter script: an activate signal
    leaves the open page uncontrolled, and nothing is called. *)
Lemma activate_basic_counterexample :
  pages (snd (react BasicScript Activate sample_world)) =
    [{| page_url := js "/"; controlled := false |}] /\
  calls (snd (react BasicScript Activate sample_world)) = [].
Proof. split; reflexivity. Qed.

(** C7, amended. On an activate signal [static/service-worker.js] claims the
    clients: every open page is controlled afterwards, with no reload (the
    pages are the same). The shorter script registers no activate listener
    and an activate signal changes nothing. *)
Theorem activate_claims_in_static_only (w : World) :
  (let o := fst (react StaticScript Activate w) in
   let w' := snd (react StaticScript Activate w) in
   uncaught o = None /\
   settled o = [Val tt] /\
   calls w' = calls w ++ [ClientsClaim] /\
   map page_url (pages w') = map page_url (pages w) /\
   forallb controlled (pages w') = true) /\
  react BasicScript Activate w =
    ({| uncaught := None; settled := []; responded := None |}, w).
Proof.
  split; [|reflexivity]. cbn. repeat split.
  - rewrite map_map. reflexivity.
  - induction (pages w); cbn; auto.
Qed.

Lemma fetch_all_assets (w : World) (urls : list jsstring) :
  match fetch_all (network w) (map GET urls) with
  | Some _ => forallb (asset_ok w) urls = true
  | None => forallb (asset_ok w) urls = false
  end.
Proof.
  induction urls as [|u urls IH]; simpl; [reflexivity|].
  unfold asset_ok at 1 3.
  destruct (network w (GET u)) as [|r]; [reflexivity|].
  destruct (storable r); [|reflexivity].
  destruct (fetch_all (network w) (map GET urls)); simpl; exact IH.
Qed.

(** The bucket after a successful [addAll] on it. *)
Lemma stored_assets (w : World) (urls : list jsstring)
  (es : list (Request * Response)) (c : Cache) :
  fetch_all (network w) (map GET urls) = Some es ->
  Forall (fun u => exists r, network w (GET u) = Answer r /\
                             cache_match (put_all es c) (GET u) = Some r)
         urls.
Proof.
  intros H. apply fetch_all_some in H. destruct H as [E F].
  apply Forall_forall. intros u I.
  assert (In (GET u) (map fst es)) as I'
    by (rewrite E; apply in_map; exact I).
  assert (Forall (fun e => method (fst e) = js "GET" /\
                           network w (fst e) = Answer (snd e)) es) as F'.
  { apply Forall_forall. intros e Ie. split.
    - assert (In (fst e) (map GET urls)) as M
        by (rewrite <- E; apply in_map; exact Ie).
      apply in_map_iff in M. destruct M as (u' & <- & _). reflexivity.
    - exact (proj1 (Forall_forall _ _) F e Ie). }
  apply in_map_iff in I'. destruct I' as ([k r] & K & Ie). simpl in K. subst k.
  exists r. split.
  - exact (proj1 (Forall_forall _ _) F _ Ie).
  - apply put_all_match with (net := network w); [exact F'| |].
    + exact (proj1 (Forall_forall _ _) F _ Ie).
    + right. rewrite E. apply in_map. exact I.
Qed.

(** C2. Install reaction: the assets go into the bucket as a unit. If the
    transport answers every asset of the list with a storable response, the
    promise given to [waitUntil] is fulfilled and every asset is then served
    from the bucket with the response the transport gave; if it fails for
    any one asset, that promise is rejected and the bucket holds what it
    held before, so that no fulfilled install has a partly filled bucket.
    Both variants. *)
Theorem install_all_or_nothing (v : Variant) (w : World) :
  let o := fst (react v Install w) in
  let w' := snd (react v Install w) in
  uncaught o = None /\
  if forallb (asset_ok w) (assets v)
  then settled o = [Val tt] /\
       Forall (fun u => exists r,
                   network w (GET u) = Answer r /\
                   cache_match (bucket_entries w') (GET u) = Some r)
              (assets v)
  else settled o = [Thrown TypeError] /\
       bucket_entries w' = bucket_entries w.
Proof.
  pose proof (fetch_all_assets w (assets v)) as A.
  pose proof (@stored_assets w (assets v)) as S.
  unfold bucket_entries, cache_name.
  destruct v; unfold assets in *;
    (destruct (fetch_all (network w) (map GET _)) as [es|] eqn:F;
     rewrite A;
     destruct (bucket (js "whosout-v1") (caches w)) as [c|] eqn:B);
    unfold react, listener, Static.listener, Basic.listener, deliver,
      Static.install, Basic.install, waitUntil, lift, caches_open,
      cache_addAll, skipWaiting, void, then_, bind, ret, log;
    cbn -[fetch_all map forallb bucket with_bucket js put_all cache_match];
    rewrite ?B; cbn -[fetch_all map forallb bucket with_bucket js put_all cache_match];
    rewrite ?F; cbn -[fetch_all map forallb bucket with_bucket js put_all cache_match];
    rewrite ?bucket_with_bucket; try rewrite (@bucket_new _ _ B); rewrite ?B;
    cbn -[js put_all];
    repeat split; auto.
Qed.

Ltac push_run :=
  unfold react, listener, Static.listener, Basic.listener, deliver,
    Static.push, Basic.push, try_catch, json, member, waitUntil, lift,
    showNotification, Date_now, void, bind, ret, throw, log, text;
  cbn -[js default_title String_of or_else lookup to_boolean JSON_parse].

Ltac shown_last :=
  unfold displays;
  cbn -[js default_title String_of or_else lookup to_boolean JSON_parse];
  split; [reflexivity | apply in_or_app; right; left; reflexivity].

(** C5 as it is written fails on the title: the scripts spell it with the
    apostrophe U+2019, the claim with the ASCII one. *)
Lemma push_no_payload_title_counterexample :
  map title (shown (snd (react StaticScript (Push None) sample_world)))
    <> [VString ascii_title] /\
  map title (shown (snd (react BasicScript (Push None) sample_world)))
    <> [VString ascii_title].
Proof. split; vm_compute; discriminate. Qed.

(** C5, amended. A push event without payload displays a notification with
    the default title of the scripts, spelt with U+2019, and the empty
    string as body. Both variants. *)
Theorem push_no_payload (v : Variant) (w : World) :
  let o := fst (react v (Push None) w) in
  let w' := snd (react v (Push None) w) in
  uncaught o = None /\
  settled o = [Val tt] /\
  exists opts,
    displays w w' (VString default_title) opts /\
    option_of opts "body" = Some (VString []).
Proof.
  destruct v; push_run; (split; [reflexivity|]); (split; [reflexivity|]);
    eexists; (split; [shown_last | reflexivity]).
Qed.

(** C3 as it is written fails twice on a plain text: the shorter script
    lets the SyntaxError through and displays nothing, and the title that
    [static/service-worker.js] displays is not the ASCII spelling. *)
Lemma push_text_counterexample :
  (uncaught (fst (react BasicScript (Push (Some plain_payload)) sample_world))
     = Some SyntaxError /\
   shown (snd (react BasicScript (Push (Some plain_payload)) sample_world))
     = []) /\
  map title
      (shown (snd (react StaticScript (Push (Some plain_payload))
                         sample_world)))
    <> [VString ascii_title].
Proof.
  split; [split; vm_compute; reflexivity | vm_compute; discriminate].
Qed.

(** The shorter script has no fallback: a payload that is not JSON makes
    its push listener throw, nothing is called and nothing is displayed. *)
Lemma push_text_fatal_in_basic (d : PushMessageData) (w : World) :
  JSON_parse d = None ->
  react BasicScript (Push (Some d)) w =
    ({| uncaught := Some SyntaxError; settled := []; responded := None |}, w).
Proof.
  intros P. push_run. rewrite P. destruct w; reflexivity.
Qed.

(** C3, amended. In [static/service-worker.js], a payload that is not valid
    JSON is recovered from: the listener does not throw, and a notification
    is displayed with the default title of the script (spelt with U+2019)
    and the text of the payload as body. *)
Theorem push_text_fallback (d : PushMessageData) (w : World) :
  JSON_parse d = None ->
  let o := fst (react StaticScript (Push (Some d)) w) in
  let w' := snd (react StaticScript (Push (Some d)) w) in
  uncaught o = None /\
  settled o = [Val tt] /\
  exists opts,
    displays w w' (VString default_title) opts /\
    option_of opts "body" = Some (VString (text d)).
Proof.
  intros P. push_run. rewrite P.
  cbn -[js default_title String_of or_else lookup to_boolean JSON_parse].
  (split; [reflexivity|]); (split; [reflexivity|]).
  eexists; split; [shown_last|].
  destruct d; reflexivity.
Qed.

Lemma push_text_fallback_witness :
  JSON_parse plain_payload = None /\
  exists opts,
    displays sample_world
      (snd (react StaticScript (Push (Some plain_payload)) sample_world))
      (VString default_title) opts /\
    option_of opts "body" = Some (VString plain_payload).
Proof.
  split; [reflexivity|].
  apply (@push_text_fallback plain_payload sample_world). reflexivity.
Defined.

(** C4 as it is written fails on a title that is present but empty: the
    default title is displayed, not the title of the payload. *)
Lemma push_empty_title_counterexample :
  JSON_parse empty_title_payload =
    Some (VObject [(js "title", VString []);
                   (js "body", VString (js "Alice is out"))]) /\
  map title
      (shown (snd (react StaticScript (Push (Some empty_title_payload))
                         sample_world)))
    = [VString default_title] /\
  map title
      (shown (snd (react BasicScript (Push (Some empty_title_payload))
                         sample_world)))
    = [VString default_title] /\
  VString default_title <> VString [].
Proof.
  repeat split; try (vm_compute; reflexivity). discriminate.
Qed.

(** C4, amended. For a payload that parses as a JSON object whose title and
    body are both present and are non-empty strings, the notification
    displayed carries exactly that title and that body. Both variants. *)
Theorem push_json_title_and_body (v : Variant) (d : PushMessageData)
  (ps : list (jsstring * value)) (t b : jsstring) (w : World) :
  JSON_parse d = Some (VObject ps) ->
  lookup (js "title") ps = Some (VString t) ->
  lookup (js "body") ps = Some (VString b) ->
  t <> [] ->
  b <> [] ->
  let o := fst (react v (Push (Some d)) w) in
  let w' := snd (react v (Push (Some d)) w) in
  uncaught o = None /\
  settled o = [Val tt] /\
  exists opts,
    displays w w' (VString t) opts /\
    option_of opts "body" = Some (VString b).
Proof.
  intros P T B Tt Tb.
  assert (to_boolean (VString t) = true) as Et
    by (destruct t; [contradiction|reflexivity]).
  assert (to_boolean (VString b) = true) as Eb
    by (destruct b; [contradiction|reflexivity]).
  destruct v; push_run; rewrite P;
    cbn -[js default_title String_of or_else lookup to_boolean JSON_parse];
    rewrite T, B; unfold or_else; rewrite Et, Eb;
    (split; [reflexivity|]); (split; [reflexivity|]);
    eexists; (split; [shown_last | reflexivity]).
Qed.

Lemma push_json_title_and_body_witness :
  (exists opts,
     displays sample_world
       (snd (react StaticScript (Push (Some meeting_payload)) sample_world))
       (VString (js "Meeting")) opts /\
     option_of opts "body" = Some (VString (js "Alice is out"))) /\
  (exists opts,
     displays sample_world
       (snd (react BasicScript (Push (Some meeting_payload)) sample_world))
       (VString (js "Meeting")) opts /\
     option_of opts "body" = Some (VString (js "Alice is out"))).
Proof.
  split.
  - apply (@push_json_title_and_body StaticScript meeting_payload
             [(js "title", VString (js "Meeting"));
              (js "body", VString (js "Alice is out"))]
             (js "Meeting") (js "Alice is out") sample_world);
      try reflexivity; discriminate.
  - apply (@push_json_title_and_body BasicScript meeting_payload
             [(js "title", VString (js "Meeting"));
              (js "body", VString (js "Alice is out"))]
             (js "Meeting") (js "Alice is out") sample_world);
      try reflexivity; discriminate.
Defined.

(** C10. The defaults apply to falsy values, not only to missing ones: for a
    payload that parses as a JSON object, a title that is the empty string
    (or falsy in any other way) is displayed as the default title, not as
    the empty string, and a body that is the empty string or falsy in any
    other way is displayed as the empty string. Both variants. *)
Theorem push_defaults_by_falsiness (v : Variant) (d : PushMessageData)
  (ps : list (jsstring * value)) (w : World) :
  JSON_parse d = Some (VObject ps) ->
  let o := fst (react v (Push (Some d)) w) in
  let w' := snd (react v (Push (Some d)) w) in
  uncaught o = None /\
  settled o = [Val tt] /\
  exists t opts,
    displays w w' t opts /\
    (lookup (js "title") ps = Some (VString []) ->
     t = VString default_title /\ t <> VString []) /\
    (forall x, lookup (js "title") ps = Some x -> to_boolean x = false ->
               t = VString default_title) /\
    (forall b, lookup (js "body") ps = Some b -> to_boolean b = false ->
               option_of opts "body" = Some (VString [])).
Proof.
  intros P. destruct v; push_run; rewrite P;
    cbn -[js default_title String_of or_else lookup to_boolean JSON_parse];
    (split; [reflexivity|]); (split; [reflexivity|]);
    eexists; eexists; (split; [shown_last|]);
    (split; [intros ->; split; [reflexivity|discriminate]|]);
    (split; [intros x -> F; unfold or_else; rewrite F; reflexivity|]);
    intros b -> F; unfold option_of, or_else; rewrite F; reflexivity.
Qed.

Lemma push_defaults_by_falsiness_witness :
  exists t opts,
    displays sample_world
      (snd (react BasicScript (Push (Some falsy_payload)) sample_world))
      t opts /\
    t = VString default_title /\
    option_of opts "body" = Some (VString []).
Proof.
  destruct (@push_defaults_by_falsiness BasicScript falsy_payload
              [(js "title", VString []);
               (js "body", VNumber {| neg := false; mant := 0; exp10 := 0 |})]
              sample_world eq_refl)
    as (_ & _ & t & opts & D & T & _ & B).
  exists t, opts. split; [exact D|]. split.
  - apply T. reflexivity.
  - apply (B (VNumber {| neg := false; mant := 0; exp10 := 0 |}));
      reflexivity.
Defined.

Ltac one_call H :=
  match type of H with
  | ?l = ?l ++ [_] =>
      rewrite <- (app_nil_r l) in H at 1; apply app_inv_head in H;
      discriminate H
  | ?l ++ [_] = ?l ++ [_] =>
      apply app_inv_head in H; injection H as <- <-
  end.

(** C9. The two variants differ on the notification options: whenever
    [static/service-worker.js] displays a notification, its options carry a
    tag that is the current timestamp as a string, and a renotify flag that
    is false; the options of the shorter script have neither. *)
Theorem tag_in_static_only (v : Variant) (data : option PushMessageData)
  (w : World) (t o : value) :
  calls (snd (react v (Push data) w)) = calls w ++ [ShowNotification t o] ->
  match v with
  | StaticScript =>
      option_of o "tag" = Some (VString (String_of (clock w))) /\
      option_of o "renotify" = Some (VBool false)
  | BasicScript =>
      option_of o "tag" = None /\ option_of o "renotify" = None
  end.
Proof.
  destruct v, data as [d|]; push_run;
    try (destruct (JSON_parse d) as [[| | | | | |]|]);
    cbn -[js default_title String_of or_else lookup to_boolean JSON_parse];
    intros H; one_call H; split; reflexivity.
Qed.

Lemma tag_in_static_only_witness :
  option_of
    (VObject [(js "body", VString []);
              (js "icon", VString (js "/icon-192.png"));
              (js "badge", VString (js "/icon-192.png"));
              (js "tag", VString (js "1700000000000"));
              (js "renotify", VBool false)])
    "tag" = Some (VString (String_of (clock sample_world))) /\
  option_of
    (VObject [(js "body", VString []);
              (js "icon", VString (js "/icon-192.png"));
              (js "badge", VString (js "/icon-192.png"))])
    "tag" = None.
Proof.
  split.
  - apply (@tag_in_static_only StaticScript None sample_world
             (VString default_title)). reflexivity.
  - apply (@tag_in_static_only BasicScript None sample_world
             (VString default_title)). reflexivity.
Defined.

End Properties.

(** ** Further properties of the scripts *)

Module Extras.

Import Platform Worker Observe PlatformFacts.

(** *** Caches *)

Lemma bucket_with_other (name other : jsstring) (f : Cache -> Cache)
  (st : CacheStorage) :
  jsstring_eqb other name = false ->
  bucket other (with_bucket name f st) = bucket other st.
Proof.
  intros D. induction st as [|[n c] st IH]; simpl; [reflexivity|].
  destruct (jsstring_eqb name n) eqn:E; simpl.
  - apply jsstring_eqb_eq in E. subst n. rewrite D. reflexivity.
  - rewrite IH. reflexivity.
Qed.

Lemma bucket_app_other (name other : jsstring) (c : Cache)
  (st : CacheStorage) :
  jsstring_eqb other name = false ->
  bucket other (st ++ [(name, c)]) = bucket other st.
Proof.
  intros D. induction st as [|[n c'] st IH]; simpl.
  - rewrite D. reflexivity.
  - rewrite IH. reflexivity.
Qed.

Lemma with_bucket_present (name : jsstring) (f : Cache -> Cache)
  (st : CacheStorage) (c : Cache) :
  bucket name st = Some c -> f c = c -> with_bucket name f st = st.
Proof.
  induction st as [|[n c'] st IH]; simpl; intros B F; [reflexivity|].
  destruct (jsstring_eqb name n).
  - inversion B; subst. rewrite F. reflexivity.
  - rewrite IH; auto.
Qed.

(** A match in a cache of the storage is a match in the storage. *)
Lemma storage_match_bucket (name : jsstring) (st : CacheStorage) (c : Cache)
  (q : Request) (r : Response) :
  bucket name st = Some c -> cache_match c q = Some r ->
  exists r', storage_match st q = Some r'.
Proof.
  induction st as [|[n c'] st IH]; simpl; intros B M; [discriminate|].
  destruct (cache_match c' q) as [r0|] eqn:E0; [eauto|].
  destruct (jsstring_eqb name n).
  - inversion B; subst. congruence.
  - auto.
Qed.

Lemma filter_filter {A} (f g : A -> bool) (l : list A) :
  filter f (filter g l) = filter (fun x => g x && f x) l.
Proof.
  induction l as [|x l IH]; simpl; [reflexivity|].
  destruct (g x); simpl; [destruct (f x)|]; rewrite ?IH; reflexivity.
Qed.

(** A batch of puts on distinct URLs: what the keys match goes, the batch
    is appended in order. *)
Lemma put_all_distinct (es : list (Request * Response)) :
  distinct_gets es ->
  forall c, put_all es c =
            filter (fun e => negb (replaced_by (map fst es) e)) c ++ es.
Proof.
  unfold put_all, replaced_by.
  induction es as [|[k r] es IH]; intros [G D] c; simpl.
  - rewrite app_nil_r. induction c as [|e c IHc]; simpl; congruence.
  - inversion G as [|? ? Gk G']; subst. inversion D as [|? ? Nk D']; subst.
    simpl in Gk, Nk.
    rewrite IH by (split; assumption).
    unfold cache_put. rewrite filter_app, filter_filter. simpl.
    assert (existsb (fun k0 => request_matches k0 k) (map fst es) = false)
      as F.
    { apply not_true_is_false. intros X. apply existsb_exists in X.
      destruct X as (k' & I & M). apply request_matches_spec in M.
      destruct M as [_ U]. apply Nk. apply in_map_iff in I.
      destruct I as (e & <- & I). apply in_map_iff. exists e. auto. }
    rewrite F. simpl. rewrite <- app_assoc. simpl. f_equal.
    apply filter_ext. intros e. rewrite negb_orb. reflexivity.
Qed.

(** What a batch has put is not replaced by putting it again. *)
Lemma put_all_twice (es : list (Request * Response)) (c : Cache) :
  distinct_gets es -> put_all es (put_all es c) = put_all es c.
Proof.
  intros D. rewrite !(put_all_distinct D).
  rewrite filter_app, filter_filter.
  assert (filter (fun e => negb (replaced_by (map fst es) e)) es = []) as E.
  { destruct D as [G _].
    assert (forall e, In e es -> replaced_by (map fst es) e = true) as R.
    { intros e I. apply existsb_exists. exists (fst e). split.
      - apply in_map. exact I.
      - apply request_matches_spec. split; [|reflexivity].
        exact (proj1 (Forall_forall _ _) G e I). }
    clear G. revert R. generalize (replaced_by (map fst es)).
    induction es as [|e es IH]; intros f R; simpl; [reflexivity|].
    rewrite (R e (or_introl eq_refl)). simpl. apply IH.
    intros e' I. apply R. right. exact I. }
  rewrite E, app_nil_r. f_equal.
  apply filter_ext. intros e. destruct (replaced_by _ e); reflexivity.
Qed.

(** *** The install reaction *)

Ltac install_run :=
  unfold react, listener, Static.listener, Basic.listener, deliver,
    Static.install, Basic.install, waitUntil, lift, caches_open,
    cache_addAll, skipWaiting, void, then_, bind, ret, log;
  cbn -[fetch_all map forallb bucket with_bucket js put_all cache_match].

(** The world after an install. *)
Lemma install_world (v : Variant) (w : World) :
  let w' := snd (react v Install w) in
  caches w' =
    match fetch_all (network w) (map GET (assets v)) with
    | Some es => with_bucket cache_name (put_all es)
                             (opened cache_name (caches w))
    | None => opened cache_name (caches w)
    end /\
  network w' = network w /\
  pages w' = pages w /\
  shown w' = shown w.
Proof.
  unfold opened, cache_name.
  destruct v; unfold assets;
    destruct (fetch_all (network w) (map GET _)) as [es|] eqn:F;
    destruct (bucket (js "whosout-v1") (caches w)) as [c|] eqn:B;
    install_run; rewrite ?B;
    cbn -[fetch_all map forallb bucket with_bucket js put_all cache_match];
    rewrite ?F;
    cbn -[fetch_all map forallb bucket with_bucket js put_all cache_match];
    auto.
Qed.

Lemma assets_distinct (v : Variant) : NoDup (assets v).
Proof.
  destruct v; unfold assets;
    repeat (constructor; [cbv; intuition discriminate|]); constructor.
Qed.

Lemma fetched_distinct (w : World) (v : Variant)
  (es : list (Request * Response)) :
  fetch_all (network w) (map GET (assets v)) = Some es -> distinct_gets es.
Proof.
  intros F. apply fetch_all_some in F. destruct F as [E _]. split.
  - apply Forall_forall. intros e I.
    assert (In (fst e) (map GET (assets v))) as M
      by (rewrite <- E; apply in_map; exact I).
    apply in_map_iff in M. destruct M as (u & <- & _). reflexivity.
  - replace (map (fun e => url (fst e)) es) with (map url (map fst es))
      by (rewrite map_map; reflexivity).
    rewrite E, map_map. simpl. rewrite map_id. apply assets_distinct.
Qed.

(** X1. The calls of an install, in their order. [static/service-worker.js]
    opens the bucket, asks to skip waiting, then adds the assets, and the
    skip-waiting flag is set whether or not the caching succeeds; the
    shorter script opens the bucket and adds the assets, and never asks to
    skip waiting. *)
Theorem install_calls (v : Variant) (w : World) :
  let w' := snd (react v Install w) in
  match v with
  | StaticScript =>
      calls w' = calls w ++ [CachesOpen cache_name; SkipWaiting;
                             CacheAddAll cache_name (assets StaticScript)] /\
      skip_waiting w' = true
  | BasicScript =>
      calls w' = calls w ++ [CachesOpen cache_name;
                             CacheAddAll cache_name (assets BasicScript)] /\
      skip_waiting w' = skip_waiting w
  end.
Proof.
  unfold cache_name.
  destruct v;
    [destruct (fetch_all (network w) (map GET (assets StaticScript)))
       as [es|] eqn:F
    |destruct (fetch_all (network w) (map GET (assets BasicScript)))
       as [es|] eqn:F];
    unfold assets in *;
    destruct (bucket (js "whosout-v1") (caches w)) as [c|] eqn:B;
    install_run; rewrite ?B;
    cbn -[fetch_all map forallb bucket with_bucket js put_all cache_match];
    rewrite ?F;
    cbn -[fetch_all map forallb bucket with_bucket js put_all cache_match];
    rewrite <- ?app_assoc; auto.
Qed.

(** X2. On an empty cache storage, an install whose fetches all succeed
    leaves exactly one cache, the bucket, and the bucket holds exactly one
    entry per asset, in the order of the list, with the response that the
    transport gave. *)
Theorem install_fresh_storage (v : Variant) (w : World) :
  caches w = [] ->
  forallb (asset_ok w) (assets v) = true ->
  exists es,
    caches (snd (react v Install w)) = [(cache_name, es)] /\
    map fst es = map GET (assets v) /\
    Forall (fun e => network w (fst e) = Answer (snd e)) es.
Proof.
  intros E A. destruct (install_world v w) as (C & _).
  pose proof (Properties.fetch_all_assets w (assets v)) as K.
  destruct (fetch_all (network w) (map GET (assets v))) as [es|] eqn:F;
    [|congruence].
  exists es. split; [|exact (fetch_all_some _ _ F)].
  rewrite C, E. cbn -[put_all js].
  rewrite (put_all_distinct (fetched_distinct _ _ F)). reflexivity.
Qed.

Lemma install_fresh_storage_witness :
  exists es,
    caches (snd (react BasicScript Install sample_world))
      = [(cache_name, es)] /\
    map fst es = map GET (assets BasicScript) /\
    Forall (fun e => network sample_world (fst e) = Answer (snd e)) es.
Proof.
  apply (@install_fresh_storage BasicScript sample_world); reflexivity.
Defined.

(** X3. An install one of whose fetches fails writes no entry anywhere: the
    caches that existed are as they were; only, if the bucket did not exist,
    it is there afterwards, empty. *)
Theorem install_failure_storage (v : Variant) (w : World) :
  forallb (asset_ok w) (assets v) = false ->
  caches (snd (react v Install w)) =
    match bucket cache_name (caches w) with
    | Some _ => caches w
    | None => caches w ++ [(cache_name, [])]
    end.
Proof.
  intros A. destruct (install_world v w) as (C & _).
  pose proof (Properties.fetch_all_assets w (assets v)) as K.
  destruct (fetch_all (network w) (map GET (assets v))) as [es|] eqn:F;
    [congruence|].
  exact C.
Qed.

Lemma install_failure_storage_witness :
  caches (snd (react StaticScript Install sample_world))
    = [(cache_name, [])].
Proof.
  apply (@install_failure_storage StaticScript sample_world). reflexivity.
Defined.

(** X4. An install touches no cache but the bucket: every cache of another
    name holds afterwards what it held before, whatever the outcome. *)
Theorem install_keeps_other_caches (v : Variant) (w : World)
  (name : jsstring) :
  name <> cache_name ->
  bucket name (caches (snd (react v Install w))) = bucket name (caches w).
Proof.
  intros D. assert (jsstring_eqb name cache_name = false) as D'.
  { apply not_true_is_false. intros X. apply jsstring_eqb_eq in X. auto. }
  destruct (install_world v w) as (C & _). rewrite C.
  assert (bucket name (opened cache_name (caches w)) = bucket name (caches w))
    as O.
  { unfold opened. destruct (bucket cache_name (caches w)); [reflexivity|].
    apply bucket_app_other. exact D'. }
  destruct (fetch_all (network w) (map GET (assets v))); [|exact O].
  rewrite bucket_with_other by exact D'. exact O.
Qed.

Lemma install_keeps_other_caches_witness :
  bucket (js "other")
         (caches (snd (react BasicScript Install
                         (set_caches (fun _ => [(js "other", [])])
                                     sample_world))))
    = Some [].
Proof.
  apply (@install_keeps_other_caches BasicScript
           (set_caches (fun _ => [(js "other", [])]) sample_world)
           (js "other")).
  discriminate.
Defined.

Lemma bucket_opened (name : jsstring) (st : CacheStorage) :
  bucket name (opened name st) =
    Some match bucket name st with Some c => c | None => [] end.
Proof.
  unfold opened. destruct (bucket name st) eqn:B; [exact B|].
  apply bucket_new. exact B.
Qed.

Lemma opened_twice (name : jsstring) (st : CacheStorage) :
  opened name (opened name st) = opened name st.
Proof.
  unfold opened at 1. rewrite bucket_opened. reflexivity.
Qed.

Lemma with_bucket_twice (name : jsstring) (f g : Cache -> Cache)
  (st : CacheStorage) :
  with_bucket name f (with_bucket name g st) =
  with_bucket name (fun c => f (g c)) st.
Proof.
  induction st as [|[n c] st IH]; simpl; [reflexivity|].
  destruct (jsstring_eqb name n) eqn:E; simpl; rewrite E; congruence.
Qed.

Lemma with_bucket_ext (name : jsstring) (f g : Cache -> Cache)
  (st : CacheStorage) :
  (forall c, f c = g c) -> with_bucket name f st = with_bucket name g st.
Proof.
  intros X. induction st as [|[n c] st IH]; simpl; [reflexivity|].
  destruct (jsstring_eqb name n); congruence.
Qed.

(** The entries of the bucket after an install. *)
Lemma install_bucket_entries (v : Variant) (w : World) :
  bucket_entries (snd (react v Install w)) =
    match fetch_all (network w) (map GET (assets v)) with
    | Some es => put_all es (bucket_entries w)
    | None => bucket_entries w
    end.
Proof.
  destruct (install_world v w) as (C & _). unfold bucket_entries.
  rewrite C.
  destruct (fetch_all (network w) (map GET (assets v)));
    rewrite ?bucket_with_bucket, bucket_opened; reflexivity.
Qed.

(** X6. Installing again while the transport answers the same changes
    nothing: the cache storage after a second install is the cache storage
    after the first, entry for entry. *)
Theorem reinstall_idempotent (v : Variant) (w : World) :
  caches (snd (react v Install (snd (react v Install w)))) =
  caches (snd (react v Install w)).
Proof.
  destruct (install_world v w) as (C & N & _).
  destruct (install_world v (snd (react v Install w))) as (C' & _).
  rewrite C', N, C.
  destruct (fetch_all (network w) (map GET (assets v))) as [es|] eqn:F.
  - assert (opened cache_name
              (with_bucket cache_name (put_all es)
                 (opened cache_name (caches w))) =
            with_bucket cache_name (put_all es)
              (opened cache_name (caches w))) as O.
    { unfold opened at 1.
      rewrite bucket_with_bucket, bucket_opened. reflexivity. }
    rewrite O, with_bucket_twice. apply with_bucket_ext. intros c.
    apply put_all_twice. exact (fetched_distinct _ _ F).
  - apply opened_twice.
Qed.

Lemma put_all_other (es : list (Request * Response)) (q : Request) :
  Forall (fun e => method (fst e) = js "GET") es ->
  Forall (fun e => request_matches q (fst e) = false) es ->
  forall c, cache_match (put_all es c) q = cache_match c q.
Proof.
  unfold put_all. induction es as [|[k r] es IH]; intros G M c; simpl;
    [reflexivity|].
  inversion G; inversion M; subst. simpl in *.
  rewrite IH by assumption. rewrite cache_match_put by assumption.
  match goal with H : request_matches q k = false |- _ => rewrite H end.
  reflexivity.
Qed.

(** X7. An install leaves the other entries of the bucket alone: a request
    for a URL that is not in the asset list is answered from the bucket
    after the install as it was before. *)
Theorem install_keeps_other_entries (v : Variant) (w : World) (q : Request) :
  ~ In (url q) (assets v) ->
  cache_match (bucket_entries (snd (react v Install w))) q =
  cache_match (bucket_entries w) q.
Proof.
  intros NI. rewrite install_bucket_entries.
  destruct (fetch_all (network w) (map GET (assets v))) as [es|] eqn:F;
    [|reflexivity].
  pose proof (fetched_distinct _ _ F) as [G _].
  apply fetch_all_some in F. destruct F as [E _].
  apply put_all_other; [exact G|].
  apply Forall_forall. intros e I.
  apply not_true_is_false. intros X. apply request_matches_spec in X.
  destruct X as [_ U]. apply NI.
  assert (In (fst e) (map GET (assets v))) as I'
    by (rewrite <- E; apply in_map; exact I).
  apply in_map_iff in I'. destruct I' as (u & K & Iu).
  rewrite U, <- K. exact Iu.
Qed.

Lemma install_keeps_other_entries_witness :
  cache_match
    (bucket_entries
       (snd (react BasicScript Install
               (set_caches
                  (fun _ => [(cache_name,
                              [(GET (js "/icon-512.png"),
                                {| status := 200; payload := js "png" |})])])
                  sample_world))))
    (GET (js "/icon-512.png"))
  = Some {| status := 200; payload := js "png" |}.
Proof.
  apply (@install_keeps_other_entries BasicScript
           (set_caches
              (fun _ => [(cache_name,
                          [(GET (js "/icon-512.png"),
                            {| status := 200; payload := js "png" |})])])
              sample_world)
           (GET (js "/icon-512.png"))).
  cbv. intuition discriminate.
Defined.

(** *** The fetch reaction *)

Ltac fetch_run :=
  unfold react, listener, Static.listener, Basic.listener, deliver,
    Static.fetch, Basic.fetch, respondWith, lift, caches_match,
    Platform.fetch, then_, bind, ret, log;
  cbn -[storage_match js].

Lemma fetch_hit (v : Variant) (req : Request) (w : World) (r : Response) :
  storage_match (caches w) req = Some r ->
  responded (fst (react v (FetchEvent req) w)) = Some (Val r) /\
  calls (snd (react v (FetchEvent req) w)) = calls w ++ [CachesMatch req].
Proof.
  intros H. destruct v; fetch_run; rewrite H; cbn; auto.
Qed.

Lemma fetch_miss (v : Variant) (req : Request) (w : World) :
  storage_match (caches w) req = None ->
  responded (fst (react v (FetchEvent req) w)) = Some (transport w req) /\
  calls (snd (react v (FetchEvent req) w)) =
    calls w ++ [CachesMatch req; Fetch req].
Proof.
  intros H. unfold transport.
  destruct v; fetch_run; rewrite H; cbn;
    destruct (network w req); cbn; rewrite <- app_assoc; auto.
Qed.

(** X5. What an install has cached is served without the network. After an
    install whose fetches all succeeded, in any later world with that cache
    storage (whatever the transport answers by then), the fetch reaction to
    a GET of an asset responds with a cached response and calls nothing but
    [caches.match]. *)
Theorem install_then_fetch (v v' : Variant) (w later : World)
  (u : jsstring) :
  forallb (asset_ok w) (assets v) = true ->
  In u (assets v) ->
  caches later = caches (snd (react v Install w)) ->
  (exists r,
     responded (fst (react v' (FetchEvent (GET u)) later)) = Some (Val r)) /\
  calls (snd (react v' (FetchEvent (GET u)) later)) =
    calls later ++ [CachesMatch (GET u)].
Proof.
  intros A I C.
  pose proof (Properties.fetch_all_assets w (assets v)) as K.
  pose proof (install_bucket_entries v w) as B.
  destruct (fetch_all (network w) (map GET (assets v))) as [es|] eqn:F;
    [|congruence].
  pose proof (Properties.stored_assets w (assets v) (bucket_entries w) F) as S.
  destruct (proj1 (Forall_forall _ _) S u I) as (r & _ & M).
  rewrite <- B in M. unfold bucket_entries in M.
  destruct (bucket cache_name (caches (snd (react v Install w))))
    as [c|] eqn:Bc; [|discriminate].
  rewrite <- C in Bc.
  destruct (storage_match_bucket _ _ _ Bc M) as (r' & H).
  destruct (fetch_hit v' _ _ H) as [R L]. eauto.
Qed.

Lemma install_then_fetch_witness :
  (exists r,
     responded
       (fst (react StaticScript (FetchEvent (GET (js "/index.html")))
               (snd (react BasicScript Install sample_world))))
     = Some (Val r)) /\
  calls (snd (react StaticScript (FetchEvent (GET (js "/index.html")))
                (snd (react BasicScript Install sample_world)))) =
    calls (snd (react BasicScript Install sample_world))
      ++ [CachesMatch (GET (js "/index.html"))].
Proof.
  apply (@install_then_fetch BasicScript StaticScript sample_world
           (snd (react BasicScript Install sample_world))
           (js "/index.html")).
  - reflexivity.
  - cbv. tauto.
  - reflexivity.
Defined.

Lemma storage_match_non_get (st : CacheStorage) (q : Request) :
  method q <> js "GET" -> storage_match st q = None.
Proof.
  intros NG.
  assert (forall c, cache_match c q = None) as C.
  { induction c as [|[k r] c IH]; simpl; [reflexivity|].
    destruct (request_matches q k) eqn:M; [|exact IH].
    apply request_matches_spec in M. tauto. }
  induction st as [|[n c] st IH]; simpl; [reflexivity|].
  rewrite C. exact IH.
Qed.

(** X8. A request that is not a GET is never answered from the cache: the
    fetch reaction calls the network exactly once and responds with what it
    gives, whatever the caches hold. *)
Theorem fetch_non_get (v : Variant) (req : Request) (w : World) :
  method req <> js "GET" ->
  responded (fst (react v (FetchEvent req) w)) = Some (transport w req) /\
  calls (snd (react v (FetchEvent req) w)) =
    calls w ++ [CachesMatch req; Fetch req].
Proof.
  intros NG. apply fetch_miss. apply storage_match_non_get. exact NG.
Qed.

Lemma fetch_non_get_witness :
  responded
    (fst (react StaticScript (FetchEvent post_root)
            (snd (react BasicScript Install sample_world))))
  = Some (Val {| status := 200; payload := js "/" |}).
Proof.
  apply (@fetch_non_get StaticScript post_root
           (snd (react BasicScript Install sample_world))).
  discriminate.
Defined.

(** X9. The cache is never refreshed by a fetch: on a storage that was empty
    before the install, the fetch reaction to a GET of an asset responds
    with the very response the transport gave at install time, whatever the
    transport would answer later. *)
Theorem install_then_fetch_fresh (v v' : Variant) (w later : World)
  (u : jsstring) (r : Response) :
  caches w = [] ->
  forallb (asset_ok w) (assets v) = true ->
  In u (assets v) ->
  network w (GET u) = Answer r ->
  caches later = caches (snd (react v Install w)) ->
  responded (fst (react v' (FetchEvent (GET u)) later)) = Some (Val r).
Proof.
  intros E A I N C.
  pose proof (Properties.fetch_all_assets w (assets v)) as K.
  destruct (install_world v w) as (Cw & _).
  destruct (fetch_all (network w) (map GET (assets v))) as [es|] eqn:F;
    [|congruence].
  pose proof (Properties.stored_assets w (assets v) [] F) as S.
  destruct (proj1 (Forall_forall _ _) S u I) as (r' & N' & M).
  assert (r' = r) by congruence. subst r'.
  apply fetch_hit. rewrite C, Cw, E. unfold opened. simpl.
  rewrite M. reflexivity.
Qed.

Lemma install_then_fetch_fresh_witness :
  responded
    (fst (react BasicScript (FetchEvent (GET (js "/manifest.json")))
            (set_caches
               (fun _ => caches (snd (react BasicScript Install sample_world)))
               {| caches := []; network := fun _ => NetworkError;
                  clock := 0; pages := []; shown := []; next_ident := 0;
                  skip_waiting := false; calls := [] |})))
  = Some (Val {| status := 200; payload := js "/manifest.json" |}).
Proof.
  apply (@install_then_fetch_fresh BasicScript BasicScript sample_world
           (set_caches
              (fun _ => caches (snd (react BasicScript Install sample_world)))
              {| caches := []; network := fun _ => NetworkError;
                 clock := 0; pages := []; shown := []; next_ident := 0;
                 skip_waiting := false; calls := [] |})
           (js "/manifest.json")); try reflexivity.
  cbv. tauto.
Defined.

(** *** The push reaction *)

Ltac push_run :=
  unfold react, listener, Static.listener, Basic.listener, deliver,
    Static.push, Basic.push, try_catch, json, member, waitUntil, lift,
    showNotification, Date_now, void, bind, ret, throw, log, text;
  cbn -[js default_title String_of or_else lookup to_boolean JSON_parse
        survives filter].

(** [JSON.parse] never gives [undefined]. *)
Lemma parse_value_defined (f : nat) (s : jsstring) (rest : jsstring) :
  parse_value f s <> Parsed VUndefined rest.
Proof.
  destruct f as [|f]; [discriminate|]. cbn [parse_value].
  unfold parse_number, parse_literal. intros H.
  repeat match type of H with
         | context [match ?x with _ => _ end] => destruct x eqn:?
         end; discriminate.
Qed.

Lemma JSON_parse_defined (d : jsstring) : JSON_parse d <> Some VUndefined.
Proof.
  unfold JSON_parse. intros H.
  destruct (parse_value (fuel_for d) d) as [x rest| |] eqn:P;
    try discriminate.
  destruct (skip_ws rest); [|discriminate].
  inversion H; subst. exact (parse_value_defined _ _ P).
Qed.

Lemma js_injective (a b : string) : js a = js b -> a = b.
Proof.
  unfold js. revert b. induction a as [|x a IH]; intros [|y b]; simpl;
    intros H; try discriminate; [reflexivity|].
  inversion H as [[X Y]]. f_equal; [|apply IH; exact Y].
  rewrite <- (ascii_N_embedding x), <- (ascii_N_embedding y). congruence.
Qed.

(** Distinct timestamps have distinct strings, none of them empty. *)
Lemma String_of_injective (a b : N) : String_of a = String_of b -> a = b.
Proof.
  unfold String_of. intros H. apply js_injective in H.
  apply DecimalN.Unsigned.to_uint_inj.
  assert (forall n, N.to_uint n <> Decimal.Nil) as NN.
  { intros [|p]; [discriminate|]. apply DecimalPos.Unsigned.to_uint_nonnil. }
  pose proof (NilZero.usu _ (NN a)) as Ua.
  pose proof (NilZero.usu _ (NN b)) as Ub.
  congruence.
Qed.

Lemma String_of_nonempty (a : N) : String_of a <> [].
Proof.
  unfold String_of. intros H.
  assert (NilZero.string_of_uint (N.to_uint a) = EmptyString) as E
    by (apply js_injective; exact H).
  assert (N.to_uint a <> Decimal.Nil) as NN.
  { destruct a; [discriminate|]. apply DecimalPos.Unsigned.to_uint_nonnil. }
  pose proof (NilZero.usu _ NN) as U. rewrite E in U. discriminate.
Qed.

(** A push reaction either throws before it has called anything, or
    displays one notification and changes nothing else. *)
Lemma push_cases (v : Variant) (data : option PushMessageData) (w : World) :
  (exists e,
     react v (Push data) w =
       ({| uncaught := Some e; settled := []; responded := None |}, w)) \/
  (exists t opts,
     fst (react v (Push data) w) =
       {| uncaught := None; settled := [Val tt]; responded := None |} /\
     snd (react v (Push data) w) =
       {| caches := caches w; network := network w; clock := clock w;
          pages := pages w;
          shown := filter (survives opts) (shown w) ++
                   [{| ident := next_ident w; title := t; options := opts |}];
          next_ident := S (next_ident w);
          skip_waiting := skip_waiting w;
          calls := calls w ++ [ShowNotification t opts] |} /\
     option_of opts "tag" =
       match v with
       | StaticScript => Some (VString (String_of (clock w)))
       | BasicScript => None
       end /\
     option_of opts "icon" = Some (VString (js "/icon-192.png")) /\
     option_of opts "badge" = Some (VString (js "/icon-192.png"))).
Proof.
  destruct v, data as [d|]; push_run;
    try destruct (JSON_parse d) as [[| | | | | |]|];
    cbn -[js default_title String_of or_else lookup to_boolean JSON_parse
          survives filter];
    solve [ left; eexists; destruct w; reflexivity
          | match goal with
            | |- context [ShowNotification ?t ?o] =>
                right; exists t, o; repeat split; reflexivity
            end ].
Qed.

Lemma tag_of_option (o : value) (s : jsstring) :
  option_of o "tag" = Some (VString s) -> tag_of o = s.
Proof.
  unfold option_of, tag_of. destruct o; try discriminate.
  intros ->. reflexivity.
Qed.

Lemma tag_of_no_option (o : value) : option_of o "tag" = None -> tag_of o = [].
Proof.
  unfold option_of, tag_of. destruct o; try reflexivity.
  intros ->. reflexivity.
Qed.

Ltac one_call H :=
  match type of H with
  | ?l = ?l ++ [_] =>
      rewrite <- (app_nil_r l) in H at 1; apply app_inv_head in H;
      discriminate H
  | ?l ++ [_] = ?l ++ [_] =>
      apply app_inv_head in H; injection H as <- <-
  end.

(** X10. When the push reaction throws. Without payload it never does. With
    a payload that parses as JSON it throws, a TypeError, exactly when the
    value is [null], in both variants: the member access is outside the
    [try]. With a payload that is not JSON only the shorter script throws,
    a SyntaxError. *)
Theorem push_failures (v : Variant) (data : option PushMessageData)
  (w : World) :
  uncaught (fst (react v (Push data) w)) =
    match data with
    | None => None
    | Some d =>
        match JSON_parse d with
        | Some VNull => Some TypeError
        | Some _ => None
        | None =>
            match v with
            | StaticScript => None
            | BasicScript => Some SyntaxError
            end
        end
    end.
Proof.
  destruct v, data as [d|]; push_run; try reflexivity;
    pose proof (@JSON_parse_defined d) as U;
    destruct (JSON_parse d) as [[| | | | | |]|]; try reflexivity;
    congruence.
Qed.

(** X11. A push reaction that throws has done nothing: no call was made,
    nothing is displayed, the world is as it was. *)
Theorem push_failure_is_clean (v : Variant) (data : option PushMessageData)
  (w : World) :
  uncaught (fst (react v (Push data) w)) <> None ->
  snd (react v (Push data) w) = w /\
  settled (fst (react v (Push data) w)) = [].
Proof.
  intros F. destruct (push_cases v data w) as [(e & E)|(t & o & E & _)].
  - rewrite E. split; reflexivity.
  - rewrite E in F. simpl in F. congruence.
Qed.

Lemma push_failure_is_clean_witness :
  snd (react StaticScript (Push (Some null_payload)) sample_world)
    = sample_world /\
  settled (fst (react StaticScript (Push (Some null_payload)) sample_world))
    = [].
Proof.
  apply (@push_failure_is_clean StaticScript (Some null_payload)
           sample_world).
  discriminate.
Defined.

(** X12. A payload that is JSON but has no members to read (a string, a
    number, a boolean, an array) gives the defaults: the default title and
    the empty string as body. Both variants. *)
Theorem push_memberless_defaults (v : Variant) (d : PushMessageData)
  (x : value) (w : World) :
  JSON_parse d = Some x ->
  memberless x = true ->
  uncaught (fst (react v (Push (Some d)) w)) = None /\
  exists opts,
    displays w (snd (react v (Push (Some d)) w))
             (VString default_title) opts /\
    option_of opts "body" = Some (VString []).
Proof.
  intros P M.
  destruct v; push_run; rewrite P; destruct x; try discriminate M;
    cbn -[js default_title String_of or_else lookup to_boolean JSON_parse
          survives filter];
    (split; [reflexivity|]); eexists;
    (split; [split; [reflexivity
                    | apply in_or_app; right; left; reflexivity]
            | reflexivity]).
Qed.

Lemma push_memberless_defaults_witness :
  uncaught (fst (react BasicScript (Push (Some string_payload))
                   sample_world)) = None /\
  exists opts,
    displays sample_world
      (snd (react BasicScript (Push (Some string_payload)) sample_world))
      (VString default_title) opts /\
    option_of opts "body" = Some (VString []).
Proof.
  apply (@push_memberless_defaults BasicScript string_payload
           (VString (js "on leave")) sample_world); reflexivity.
Defined.

(** X13. A JSON object without a title is displayed with the default title,
    and one without a body with the empty string as body. Both variants. *)
Theorem push_missing_fields (v : Variant) (d : PushMessageData)
  (ps : list (jsstring * value)) (w : World) :
  JSON_parse d = Some (VObject ps) ->
  exists t opts,
    displays w (snd (react v (Push (Some d)) w)) t opts /\
    (lookup (js "title") ps = None -> t = VString default_title) /\
    (lookup (js "body") ps = None ->
     option_of opts "body" = Some (VString [])).
Proof.
  intros P.
  destruct v; push_run; rewrite P;
    cbn -[js default_title String_of or_else lookup to_boolean JSON_parse
          survives filter];
    eexists; eexists;
    (split; [split; [reflexivity
                    | apply in_or_app; right; left; reflexivity]|]);
    (split; [intros ->; reflexivity|]);
    intros ->; reflexivity.
Qed.

Lemma push_missing_fields_witness :
  exists t opts,
    displays sample_world
      (snd (react StaticScript (Push (Some no_fields_payload)) sample_world))
      t opts /\
    t = VString default_title /\
    option_of opts "body" = Some (VString []).
Proof.
  destruct (@push_missing_fields StaticScript no_fields_payload []
              sample_world eq_refl) as (t & opts & D & T & B).
  exists t, opts. repeat split; [apply D | apply D | auto | auto].
Defined.

(** X14. Whatever the payload, a displayed notification has the icon and
    the badge [/icon-192.png]. Both variants. *)
Theorem push_icon_and_badge (v : Variant) (data : option PushMessageData)
  (w : World) (t o : value) :
  calls (snd (react v (Push data) w)) = calls w ++ [ShowNotification t o] ->
  option_of o "icon" = Some (VString (js "/icon-192.png")) /\
  option_of o "badge" = Some (VString (js "/icon-192.png")).
Proof.
  intros H.
  destruct (push_cases v data w) as [(e & E)|(t' & o' & _ & E & _ & I & B)];
    rewrite E in H; simpl in H; one_call H.
  split; assumption.
Qed.

Lemma push_icon_and_badge_witness :
  option_of
    (VObject [(js "body", VString (js "Alice is out"));
              (js "icon", VString (js "/icon-192.png"));
              (js "badge", VString (js "/icon-192.png"))])
    "icon" = Some (VString (js "/icon-192.png")) /\
  option_of
    (VObject [(js "body", VString (js "Alice is out"));
              (js "icon", VString (js "/icon-192.png"));
              (js "badge", VString (js "/icon-192.png"))])
    "badge" = Some (VString (js "/icon-192.png")).
Proof.
  apply (@push_icon_and_badge BasicScript (Some meeting_payload)
           sample_world (VString (js "Meeting"))).
  reflexivity.
Defined.

(** X15. The push reaction touches neither the caches nor the pages nor
    the skip-waiting flag, and it makes at most one call, which is
    [showNotification]. Both variants. *)
Theorem push_frame (v : Variant) (data : option PushMessageData)
  (w : World) :
  let w' := snd (react v (Push data) w) in
  caches w' = caches w /\
  pages w' = pages w /\
  skip_waiting w' = skip_waiting w /\
  (calls w' = calls w \/
   exists t o, calls w' = calls w ++ [ShowNotification t o]).
Proof.
  destruct (push_cases v data w) as [(e & E)|(t & o & _ & E & _)];
    cbv zeta; rewrite E; simpl; repeat split; eauto.
Qed.

Lemma survives_other_tag (o : value) (a b : N) (m : Notification) :
  option_of o "tag" = Some (VString (String_of a)) ->
  option_of (options m) "tag" = Some (VString (String_of b)) ->
  survives o m = negb (N.eqb a b).
Proof.
  intros T T'. unfold survives.
  rewrite (tag_of_option _ T), (tag_of_option _ T').
  destruct (String_of a) as [|c s] eqn:E;
    [exfalso; exact (@String_of_nonempty _ E)|]. rewrite <- E.
  f_equal. destruct (N.eqb a b) eqn:Q.
  - apply N.eqb_eq in Q. subst b. apply jsstring_eqb_refl.
  - apply not_true_is_false. intros X. apply jsstring_eqb_eq in X.
    apply String_of_injective in X. apply N.eqb_neq in Q. congruence.
Qed.

(** X16. In [static/service-worker.js] the tag keeps notifications apart
    over time: a notification displayed by a push is still displayed after
    a second push that comes at another timestamp. *)
Theorem push_at_other_time_keeps (d1 d2 : option PushMessageData)
  (w : World) (t2 : N) (t o : value) :
  let w1 := snd (react StaticScript (Push d1) w) in
  let w2 := snd (react StaticScript (Push d2) (at_time t2 w1)) in
  displays w w1 t o ->
  t2 <> clock w ->
  In {| ident := next_ident w; title := t; options := o |} (shown w2).
Proof.
  cbv zeta. intros [C _] NE.
  remember (snd (react StaticScript (Push d1) w)) as w1 eqn:W.
  destruct (push_cases StaticScript d1 w)
    as [(e & E)|(t1 & o1 & _ & E & T & _)];
    rewrite E in W; simpl in W;
    [subst w1; one_call C|].
  destruct (push_cases StaticScript d2 (at_time t2 w1))
    as [(e & E2)|(t' & o' & _ & E2 & T2 & _)];
    rewrite E2; subst w1; simpl in *; one_call C.
  - apply in_or_app. right. left. reflexivity.
  - apply in_or_app. left. apply filter_In. split.
    + apply in_or_app. right. left. reflexivity.
    + rewrite (@survives_other_tag o' t2 (clock w)); auto.
      apply negb_true_iff. apply N.eqb_neq. exact NE.
Qed.

Lemma push_at_other_time_keeps_witness :
  In {| ident := 0; title := VString (js "Meeting");
        options :=
          VObject [(js "body", VString (js "Alice is out"));
                   (js "icon", VString (js "/icon-192.png"));
                   (js "badge", VString (js "/icon-192.png"));
                   (js "tag", VString (js "1700000000000"));
                   (js "renotify", VBool false)] |}
     (shown
        (snd (react StaticScript (Push None)
                (at_time 1700000000001
                   (snd (react StaticScript (Push (Some meeting_payload))
                           sample_world)))))).
Proof.
  apply (@push_at_other_time_keeps (Some meeting_payload) None sample_world
           1700000000001).
  - split; [reflexivity | left; reflexivity].
  - discriminate.
Defined.

(** X17. The tag is no finer than the clock: in [static/service-worker.js]
    a second push displayed within the same millisecond takes the place of
    the notification of the first, which is no longer displayed. *)
Theorem push_at_same_time_replaces (d1 d2 : option PushMessageData)
  (w : World) (t o : value) :
  let w1 := snd (react StaticScript (Push d1) w) in
  let w2 := snd (react StaticScript (Push d2) w1) in
  displays w w1 t o ->
  uncaught (fst (react StaticScript (Push d2) w1)) = None ->
  ~ In {| ident := next_ident w; title := t; options := o |} (shown w2).
Proof.
  cbv zeta. intros [C _] U I.
  remember (snd (react StaticScript (Push d1) w)) as w1 eqn:W.
  destruct (push_cases StaticScript d1 w)
    as [(e & E)|(t1 & o1 & _ & E & T & _)];
    rewrite E in W; simpl in W;
    [subst w1; one_call C|].
  destruct (push_cases StaticScript d2 w1)
    as [(e & E2)|(t' & o' & _ & E2 & T2 & _)].
  - rewrite E2 in U. discriminate.
  - rewrite E2 in I. subst w1. simpl in *. one_call C.
    apply in_app_or in I. destruct I as [I|[I|[]]].
    + apply filter_In in I. destruct I as [_ S].
      rewrite (@survives_other_tag o' (clock w) (clock w)) in S; auto.
      rewrite N.eqb_refl in S. discriminate.
    + inversion I. lia.
Qed.

Lemma push_at_same_time_replaces_witness :
  ~ In {| ident := 0; title := VString (js "Meeting");
          options :=
            VObject [(js "body", VString (js "Alice is out"));
                     (js "icon", VString (js "/icon-192.png"));
                     (js "badge", VString (js "/icon-192.png"));
                     (js "tag", VString (js "1700000000000"));
                     (js "renotify", VBool false)] |}
       (shown
          (snd (react StaticScript (Push None)
                  (snd (react StaticScript (Push (Some meeting_payload))
                          sample_world))))).
Proof.
  apply (@push_at_same_time_replaces (Some meeting_payload) None
           sample_world).
  - split; [reflexivity | left; reflexivity].
  - reflexivity.
Defined.

(** X18. The shorter script sets no tag, and its notifications never take
    the place of one another: what was displayed before a push is still
    displayed after it. *)
Theorem push_basic_keeps_all (data : option PushMessageData) (w : World)
  (m : Notification) :
  In m (shown w) ->
  In m (shown (snd (react BasicScript (Push data) w))).
Proof.
  intros I.
  destruct (push_cases BasicScript data w)
    as [(e & E)|(t & o & _ & E & T & _)]; rewrite E; simpl; [exact I|].
  apply in_or_app. left. apply filter_In. split; [exact I|].
  unfold survives. rewrite (tag_of_no_option _ T). reflexivity.
Qed.

Lemma push_basic_keeps_all_witness :
  In {| ident := 0; title := VString default_title;
        options :=
          VObject [(js "body", VString []);
                   (js "icon", VString (js "/icon-192.png"));
                   (js "badge", VString (js "/icon-192.png"))] |}
     (shown
        (snd (react BasicScript (Push (Some meeting_payload))
                (snd (react BasicScript (Push None) sample_world))))).
Proof.
  apply (@push_basic_keeps_all (Some meeting_payload)
           (snd (react BasicScript (Push None) sample_world))).
  left. reflexivity.
Defined.

(** *** The notification click and the activation *)

(** X19. A click touches nothing but the clicked notification and the
    pages: the caches and the skip-waiting flag are as before, and every
    other notification is still displayed. Both variants. *)
Theorem click_frame (v : Variant) (n m : Notification) (w : World) :
  let w' := snd (react v (NotificationClick n) w) in
  caches w' = caches w /\
  skip_waiting w' = skip_waiting w /\
  (In m (shown w) -> ident m <> ident n -> In m (shown w')).
Proof.
  destruct v; cbn; repeat split; auto;
    intros I D; apply filter_In; (split; [exact I|]);
    apply negb_true_iff; apply Nat.eqb_neq; exact D.
Qed.

(** X20. A click on a notification that is no longer displayed still opens
    the root page, and the notifications displayed stay as they are. Both
    variants. *)
Theorem click_on_closed (v : Variant) (n : Notification) (w : World) :
  (forall m, In m (shown w) -> ident m <> ident n) ->
  let w' := snd (react v (NotificationClick n) w) in
  shown w' = shown w /\
  pages w' = pages w ++ [{| page_url := js "/"; controlled := true |}].
Proof.
  intros H.
  assert (filter (fun m => negb (Nat.eqb (ident m) (ident n))) (shown w)
          = shown w) as F.
  { induction (shown w) as [|m l IH]; simpl; [reflexivity|].
    assert (ident m <> ident n) as D by (apply H; left; reflexivity).
    apply Nat.eqb_neq in D. rewrite D. simpl. f_equal.
    apply IH. intros m' I. apply H. right. exact I. }
  destruct v; cbn; rewrite F; auto.
Qed.

Lemma click_on_closed_witness :
  shown (snd (react BasicScript
                (NotificationClick
                   {| ident := 7; title := VNull; options := VNull |})
                sample_world)) = [] /\
  pages (snd (react BasicScript
                (NotificationClick
                   {| ident := 7; title := VNull; options := VNull |})
                sample_world))
    = [{| page_url := js "/"; controlled := false |};
       {| page_url := js "/"; controlled := true |}].
Proof.
  apply (@click_on_closed BasicScript
           {| ident := 7; title := VNull; options := VNull |} sample_world).
  intros m [].
Defined.

(** X21. Every listener that runs to its end hands the platform exactly
    one promise to wait for: a fetch event gets a response through
    [respondWith] and nothing through [waitUntil]; every other event gets
    one promise through [waitUntil] and no response. Both variants. *)
Theorem reaction_extends_lifetime (v : Variant) (ev : Event) (w : World) :
  let o := fst (react v ev w) in
  listener v ev <> None ->
  uncaught o = None ->
  match ev with
  | FetchEvent _ => settled o = [] /\ responded o <> None
  | _ => List.length (settled o) = 1 /\ responded o = None
  end.
Proof.
  cbv zeta. intros L U. destruct ev as [| |req|data|n].
  - destruct v;
      [destruct (fetch_all (network w) (map GET (assets StaticScript)))
         as [es|] eqn:F
      |destruct (fetch_all (network w) (map GET (assets BasicScript)))
         as [es|] eqn:F];
      unfold assets in *;
      destruct (bucket (js "whosout-v1") (caches w)) as [c|] eqn:B;
      install_run; rewrite ?B;
      cbn -[fetch_all map forallb bucket with_bucket js put_all cache_match];
      rewrite ?F;
      cbn -[fetch_all map forallb bucket with_bucket js put_all cache_match];
      auto.
  - destruct v; [cbn; auto | exfalso; apply L; reflexivity].
  - destruct v; fetch_run;
      destruct (storage_match (caches w) req); cbn;
      try destruct (network w req); cbn; split; auto; discriminate.
  - destruct (push_cases v data w) as [(e & E)|(t & o & E & _)].
    + rewrite E in U. discriminate.
    + rewrite E. auto.
  - destruct v; cbn; auto.
Qed.

Lemma reaction_extends_lifetime_witness :
  settled (fst (react BasicScript (FetchEvent post_root) sample_world)) = [] /\
  responded (fst (react BasicScript (FetchEvent post_root) sample_world))
    <> None.
Proof.
  apply (@reaction_extends_lifetime BasicScript (FetchEvent post_root)
           sample_world).
  - discriminate.
  - reflexivity.
Defined.

End Extras.
